(** * Storage bucket resource and label reconciliation

    A shallow embedding of the label helpers ([SetLabels], [SetLabelsDiff],
    [SetMetadataLabelsDiff]) and of the storage bucket resource controller
    ([resourceStorageBucketCreate], [resourceStorageBucketUpdate],
    [resourceStorageBucketRead], [resourceStorageBucketDelete],
    [resourceStorageBucketStateImporter], the expanders and the flatteners)
    together with the properties the specification states about them and
    further properties read off the code.

    Go maps are finite maps ([gmap string string]); a map that may be [nil]
    is an [option]; a Go [error] result is the [Err] case of [outcome] and a
    run-time panic (nil dereference, failed type assertion) is [Panic]. *)

From stdpp Require Import gmap strings list fin_maps pretty.

Open Scope string_scope.
Open Scope list_scope.

(** The three ways a Go function of the controller can end. *)
Inductive outcome (A : Type) : Type :=
  | Ok (a : A)
  | Err (e : string)
  | Panic (msg : string).
Arguments Ok {A} a.
Arguments Err {A} e.
Arguments Panic {A} msg.

Abbreviation LabelSet := (gmap string string).

(** ** Loops over Go maps

    [for k, v := range src { acc[k] = v }] and the deletion loop of
    [SetLabelsDiff].  Go visits the keys in an unspecified order; the folds
    below run over the entries of the map, and [overlay_entries_perm] shows
    the order is immaterial. *)

Definition overlay_entries (l : list (string * string)) (acc : LabelSet) : LabelSet :=
  foldl (λ acc kv, <[kv.1 := kv.2]> acc) acc l.

Definition overlay (src acc : LabelSet) : LabelSet :=
  overlay_entries (map_to_list src) acc.

Definition prune_entries (n : LabelSet) (l : list (string * string)) (acc : LabelSet) : LabelSet :=
  foldl (λ acc kv, match n !! kv.1 with
                   | Some _ => acc
                   | None => delete kv.1 acc
                   end) acc l.

Definition prune (o n acc : LabelSet) : LabelSet :=
  prune_entries n (map_to_list o) acc.

Module Labels.

(** *** The host framework's handles

    [schema.ResourceData] as the READ method sees it: the map-typed fields by
    name, and the answer of [d.Set] for a key ([None] when the host accepts
    the write). *)
Record ResourceData : Type := {
  rd_fields : gmap string LabelSet;
  rd_set_err : string → option string
}.

(** [d.GetOk(key)]: the value and whether it is non-zero (a non-empty map). *)
Definition GetOk (d : ResourceData) (key : string) : LabelSet * bool :=
  let v := default ∅ (rd_fields d !! key) in
  (v, bool_decide (v ≠ ∅)).

(** [d.Set(key, v)]. *)
Definition Set_ (d : ResourceData) (key : string) (v : LabelSet) : outcome ResourceData :=
  match rd_set_err d key with
  | Some e => Err e
  | None => Ok {| rd_fields := <[key := v]> (rd_fields d); rd_set_err := rd_set_err d |}
  end.

(** [labels[k]] on a possibly nil [map[string]string]: the zero value when
    the key is missing. *)
Definition index (labels : LabelSet) (k : string) : string :=
  default "" (labels !! k).

Definition project_entries (labels : LabelSet) (l : list (string * string))
    (acc : LabelSet) : LabelSet :=
  foldl (λ acc kv, <[kv.1 := index labels kv.1]> acc) acc l.

(** [SetLabels(labels, d, lineage)]; [labels = None] is the nil map. *)
Definition SetLabels (labels : option LabelSet) (d : ResourceData) (lineage : string)
  : outcome ResourceData :=
  let transformed : LabelSet := ∅ in
  let transformed :=
    match GetOk d lineage with
    | (v, true) =>
        match labels with
        | Some labels => project_entries labels (map_to_list v) transformed
        | None => transformed
        end
    | (_, false) => transformed
    end in
  Set_ d lineage transformed.

(** [transport_tpg.Config], as far as the label helpers read it. *)
Record Config : Type := {
  DefaultLabels : option LabelSet
}.

(** [schema.ResourceDiff] at plan customization: the configured ["labels"]
    ([None] when [d.Get("labels")] is nil), the prior state of the computed
    map fields, the values planned with [SetNew], and the answer of [SetNew]
    for a key. *)
Record ResourceDiff : Type := {
  diff_labels : option LabelSet;
  diff_state : gmap string LabelSet;
  diff_new : gmap string LabelSet;
  diff_setnew_err : string → option string
}.

(** [d.Get(key)] for a computed map field: the planned value when there is
    one, the prior state otherwise. *)
Definition Get (d : ResourceDiff) (key : string) : LabelSet :=
  match diff_new d !! key with
  | Some v => v
  | None => default ∅ (diff_state d !! key)
  end.

(** [d.GetChange(key)]: the prior state and the planned value. *)
Definition GetChange (d : ResourceDiff) (key : string) : LabelSet * LabelSet :=
  (default ∅ (diff_state d !! key), Get d key).

(** [d.SetNew(key, v)]. *)
Definition SetNew (d : ResourceDiff) (key : string) (v : LabelSet) : outcome ResourceDiff :=
  match diff_setnew_err d key with
  | Some e => Err e
  | None => Ok {| diff_labels := diff_labels d;
                  diff_state := diff_state d;
                  diff_new := <[key := v]> (diff_new d);
                  diff_setnew_err := diff_setnew_err d |}
  end.

Definition SetLabelsDiff (config : Config) (d : ResourceDiff) : outcome ResourceDiff :=
  let terraformLabels := overlay (default ∅ (DefaultLabels config)) ∅ in
  match diff_labels d with
  | None => Ok d
  | Some labels =>
      let terraformLabels := overlay labels terraformLabels in
      match SetNew d "terraform_labels" terraformLabels with
      | Err e => Err ("error setting new terraform_labels diff: " +:+ e)
      | Panic msg => Panic msg
      | Ok d =>
          let '(o, n) := GetChange d "terraform_labels" in
          let effectiveLabels := Get d "effective_labels" in
          let effectiveLabels := overlay n effectiveLabels in
          let effectiveLabels := prune o n effectiveLabels in
          match SetNew d "effective_labels" effectiveLabels with
          | Err e => Err ("error setting new effective_labels diff: " +:+ e)
          | Panic msg => Panic msg
          | Ok d => Ok d
          end
      end
  end.

(** The host persisting a plan: planned values become the prior state of the
    next plan, under the same configuration. *)
Definition commit (d : ResourceDiff) : ResourceDiff :=
  {| diff_labels := diff_labels d;
     diff_state := diff_new d ∪ diff_state d;
     diff_new := ∅;
     diff_setnew_err := diff_setnew_err d |}.

End Labels.

(** ** The storage bucket resource *)

Module Bucket.

(** *** The storage API's types ([google.golang.org/api/storage/v1]) *)

Record BucketWebsite : Type := {
  NotFoundPage : string;
  MainPageSuffix : string
}.

Record BucketCors : Type := {
  Origin : list string;
  Method : list string;
  ResponseHeader : list string;
  MaxAgeSeconds : Z
}.

Record BucketLogging : Type := {
  LogBucket : string;
  LogObjectPrefix : string
}.

Record BucketEncryption : Type := {
  DefaultKmsKeyName : string
}.

Record BucketVersioning : Type := {
  Enabled : bool;
  versioning_ForceSendFields : list string
}.

Record BucketBilling : Type := {
  RequesterPays : bool;
  billing_ForceSendFields : list string
}.

Record BucketLifecycleRuleAction : Type := {
  action_Type : string;
  action_StorageClass : string
}.

Record BucketLifecycleRuleCondition : Type := {
  Age : Z;
  CreatedBefore : string;
  IsLive : option bool;
  MatchesStorageClass : list string;
  NumNewerVersions : Z
}.

Record BucketLifecycleRule : Type := {
  Action : option BucketLifecycleRuleAction;
  Condition : option BucketLifecycleRuleCondition
}.

Record BucketLifecycle : Type := {
  Rule : list BucketLifecycleRule;
  lifecycle_ForceSendFields : list string
}.

(** [storage.Bucket]: pointer fields are options ([None] is nil, and the
    field is then left out of the request); [Labels] and [Cors] are empty
    when nil. *)
Record Bucket : Type := {
  Id : string;
  SelfLink : string;
  Name : string;
  Labels : LabelSet;
  Location : string;
  StorageClass : string;
  Lifecycle : option BucketLifecycle;
  Versioning : option BucketVersioning;
  Website : option BucketWebsite;
  Cors : list BucketCors;
  Logging : option BucketLogging;
  Encryption : option BucketEncryption;
  Billing : option BucketBilling;
  NullFields : list string
}.

(** [&storage.Bucket{}] *)
Definition empty_bucket : Bucket :=
  {| Id := ""; SelfLink := ""; Name := ""; Labels := ∅; Location := "";
     StorageClass := ""; Lifecycle := None; Versioning := None;
     Website := None; Cors := []; Logging := None; Encryption := None;
     Billing := None; NullFields := [] |}.

Record Object : Type := {
  obj_Name : string;
  obj_Generation : Z
}.

(** [googleapi.Error] *)
Record ApiError : Type := {
  Code : Z;
  Message : string
}.

(** *** The configuration, as the schema types it

    A block list element is an option: the host hands over [nil] for a block
    written with no attribute (a website, CORS, logging, encryption or
    versioning block).  A key of a block that may be missing from its
    [map[string]interface{}] is an option as well. *)

Record WebsiteBlock : Type := {
  not_found_page : option string;
  main_page_suffix : option string
}.

Record CorsBlock : Type := {
  origin : list string;
  method : list string;
  response_header : list string;
  max_age_seconds : Z
}.

Record LoggingBlock : Type := {
  log_bucket : string;
  log_object_prefix : string
}.

Record EncryptionBlock : Type := {
  default_kms_key_name : option string
}.

Record VersioningBlock : Type := {
  enabled : bool
}.

Record ActionBlock : Type := {
  type_ : option string;
  storage_class_ : option string
}.

Record ConditionBlock : Type := {
  age : option Z;
  created_before : option string;
  is_live : option bool;
  matches_storage_class : option (list string);
  num_newer_versions : option Z
}.

(** ["action"] and ["condition"] are sets; [List()] gives their elements. *)
Record LifecycleRuleBlock : Type := {
  action : option (list ActionBlock);
  condition : option (list ConditionBlock)
}.

Record BucketConfig : Type := {
  name : string;
  location : string;
  storage_class : string;
  force_destroy : bool;
  labels : LabelSet;
  lifecycle_rule : list LifecycleRuleBlock;
  versioning : list (option VersioningBlock);
  website : list (option WebsiteBlock);
  cors : list (option CorsBlock);
  logging : list (option LoggingBlock);
  encryption : list (option EncryptionBlock);
  requester_pays : bool
}.

#[global] Instance WebsiteBlock_eq_dec : EqDecision WebsiteBlock.
Proof. solve_decision. Defined.
#[global] Instance CorsBlock_eq_dec : EqDecision CorsBlock.
Proof. solve_decision. Defined.
#[global] Instance LoggingBlock_eq_dec : EqDecision LoggingBlock.
Proof. solve_decision. Defined.
#[global] Instance EncryptionBlock_eq_dec : EqDecision EncryptionBlock.
Proof. solve_decision. Defined.
#[global] Instance VersioningBlock_eq_dec : EqDecision VersioningBlock.
Proof. solve_decision. Defined.
#[global] Instance ActionBlock_eq_dec : EqDecision ActionBlock.
Proof. solve_decision. Defined.
#[global] Instance ConditionBlock_eq_dec : EqDecision ConditionBlock.
Proof. solve_decision. Defined.
#[global] Instance LifecycleRuleBlock_eq_dec : EqDecision LifecycleRuleBlock.
Proof. solve_decision. Defined.
#[global] Instance Object_eq_dec : EqDecision Object.
Proof. solve_decision. Defined.

(** [schema.ResourceData] of the bucket resource: the prior state and the
    planned configuration ([d.GetChange] gives both, [d.Get] the planned
    one), the resource id and the computed self link. *)
Record ResourceData : Type := {
  prior : BucketConfig;
  planned : BucketConfig;
  rd_id : string;
  rd_self_link : string
}.

(** [d.HasChange(key)], for the field read by [get]. *)
Definition HasChange {A} `{EqDecision A} (get : BucketConfig → A) (d : ResourceData) : bool :=
  bool_decide (get (prior d) ≠ get (planned d)).

(** [d.GetOk(key)] on a list field: the value, and whether it is non-zero. *)
Definition GetOk {A} (get : BucketConfig → list A) (d : ResourceData) : list A * bool :=
  let v := get (planned d) in
  (v, match v with [] => false | _ => true end).

Definition SetId (d : ResourceData) (id : string) : ResourceData :=
  {| prior := prior d; planned := planned d; rd_id := id; rd_self_link := rd_self_link d |}.

Definition Set_self_link (d : ResourceData) (l : string) : ResourceData :=
  {| prior := prior d; planned := planned d; rd_id := rd_id d; rd_self_link := l |}.

(** *** The remote service

    The bucket's object versions, a counter of the calls served so far, the
    page size of a listing, and for each kind of call the error (if any) the
    service answers to the call served at a given count.  [stored] is the
    resource the service returns for a request body. *)
Record Remote : Type := {
  objects : list Object;
  clock : nat;
  max_results : nat;
  list_err : nat → option ApiError;
  object_delete_err : nat → Object → option ApiError;
  bucket_delete_err : nat → option ApiError;
  insert_err : nat → option ApiError;
  patch_err : nat → option ApiError;
  stored : Bucket → Bucket
}.

(** One call served: the counter advances, the object versions become [objs]. *)
Definition served (r : Remote) (objs : list Object) : Remote :=
  {| objects := objs; clock := S (clock r); max_results := max_results r;
     list_err := list_err r; object_delete_err := object_delete_err r;
     bucket_delete_err := bucket_delete_err r; insert_err := insert_err r;
     patch_err := patch_err r; stored := stored r |}.

(** What the controller does to the outside: its remote calls, and the
    error lines it logs. *)
Inductive Event : Type :=
  | BucketsInsert (project : string) (sb : Bucket)
  | BucketsPatch (bucket : string) (sb : Bucket)
  | ObjectsList (bucket : string)
  | ObjectsDelete (bucket : string) (object : Object)
  | BucketsDelete (bucket : string)
  | LogErr (msg : string).

Definition Buckets_Insert (r : Remote) (sb : Bucket) : Remote * (ApiError + Bucket) :=
  (served r (objects r),
   match insert_err r (clock r) with
   | Some e => inl e
   | None => inr (stored r sb)
   end).

Definition Buckets_Patch (r : Remote) (sb : Bucket) : Remote * (ApiError + Bucket) :=
  (served r (objects r),
   match patch_err r (clock r) with
   | Some e => inl e
   | None => inr (stored r sb)
   end).

(** [Objects.List(bucket).Versions(true).Do()]: one page of the versions. *)
Definition Objects_List (r : Remote) : Remote * (ApiError + list Object) :=
  (served r (objects r),
   match list_err r (clock r) with
   | Some e => inl e
   | None => inr (take (Nat.max 1 (max_results r)) (objects r))
   end).

(** [Objects.Delete(bucket, name).Generation(generation).Do()] *)
Definition Objects_Delete (r : Remote) (o : Object) : Remote * option ApiError :=
  match object_delete_err r (clock r) o with
  | Some e => (served r (objects r), Some e)
  | None =>
      if bool_decide (o ∈ objects r)
      then (served r (filter (λ o', o' ≠ o) (objects r)), None)
      else (served r (objects r), Some {| Code := 404; Message := "No such object" |})
  end.

(** [Buckets.Delete(bucket).Do()]: the service refuses a bucket that still
    holds object versions. *)
Definition Buckets_Delete (r : Remote) : Remote * option ApiError :=
  (served r (objects r),
   match bucket_delete_err r (clock r) with
   | Some e => Some e
   | None =>
       match objects r with
       | [] => None
       | _ => Some {| Code := 409; Message := "The bucket you tried to delete is not empty." |}
       end
   end).

(** What the resource takes from the provider and the machine: project
    resolution ([getProject]), the READ method that ends CREATE, the policy
    and the attempt bound of the retry wrappers (their deadline counted in
    attempts), the number of CPUs, and the order in which the worker pool's
    in-flight calls reach the service. *)
Record Host : Type := {
  getProject : ResourceData → outcome string;
  resourceStorageBucketRead :
    ResourceData → Remote → outcome ResourceData * Remote * list Event;
  isRetryableError : ApiError → bool;
  retry_attempts : nat;
  NumCPU : nat;
  schedule : nat → nat
}.

#[global] Instance outcome_ret : MRet outcome := λ A a, Ok a.
#[global] Instance outcome_bind : MBind outcome := λ A B f m,
  match m with
  | Ok a => f a
  | Err e => Err e
  | Panic msg => Panic msg
  end.

Definition nil_conversion : string :=
  "interface conversion: interface {} is nil, not map[string]interface {}".
Definition nil_dereference : string :=
  "invalid memory address or nil pointer dereference".
Definition index_out_of_range : string :=
  "index out of range".

(** The validation error of CREATE and UPDATE. *)
Definition website_error : string :=
  "At most one website block is allowed".

(** *** Field setters of [storage.Bucket] *)

Definition with_StorageClass (sb : Bucket) (v : string) : Bucket :=
  {| Id := Id sb; SelfLink := SelfLink sb; Name := Name sb; Labels := Labels sb;
     Location := Location sb; StorageClass := v; Lifecycle := Lifecycle sb;
     Versioning := Versioning sb; Website := Website sb; Cors := Cors sb;
     Logging := Logging sb; Encryption := Encryption sb; Billing := Billing sb;
     NullFields := NullFields sb |}.

Definition with_Labels (sb : Bucket) (v : LabelSet) : Bucket :=
  {| Id := Id sb; SelfLink := SelfLink sb; Name := Name sb; Labels := v;
     Location := Location sb; StorageClass := StorageClass sb; Lifecycle := Lifecycle sb;
     Versioning := Versioning sb; Website := Website sb; Cors := Cors sb;
     Logging := Logging sb; Encryption := Encryption sb; Billing := Billing sb;
     NullFields := NullFields sb |}.

Definition with_Lifecycle (sb : Bucket) (v : option BucketLifecycle) : Bucket :=
  {| Id := Id sb; SelfLink := SelfLink sb; Name := Name sb; Labels := Labels sb;
     Location := Location sb; StorageClass := StorageClass sb; Lifecycle := v;
     Versioning := Versioning sb; Website := Website sb; Cors := Cors sb;
     Logging := Logging sb; Encryption := Encryption sb; Billing := Billing sb;
     NullFields := NullFields sb |}.

Definition with_Versioning (sb : Bucket) (v : option BucketVersioning) : Bucket :=
  {| Id := Id sb; SelfLink := SelfLink sb; Name := Name sb; Labels := Labels sb;
     Location := Location sb; StorageClass := StorageClass sb; Lifecycle := Lifecycle sb;
     Versioning := v; Website := Website sb; Cors := Cors sb;
     Logging := Logging sb; Encryption := Encryption sb; Billing := Billing sb;
     NullFields := NullFields sb |}.

Definition with_Website (sb : Bucket) (v : option BucketWebsite) : Bucket :=
  {| Id := Id sb; SelfLink := SelfLink sb; Name := Name sb; Labels := Labels sb;
     Location := Location sb; StorageClass := StorageClass sb; Lifecycle := Lifecycle sb;
     Versioning := Versioning sb; Website := v; Cors := Cors sb;
     Logging := Logging sb; Encryption := Encryption sb; Billing := Billing sb;
     NullFields := NullFields sb |}.

Definition with_Cors (sb : Bucket) (v : list BucketCors) : Bucket :=
  {| Id := Id sb; SelfLink := SelfLink sb; Name := Name sb; Labels := Labels sb;
     Location := Location sb; StorageClass := StorageClass sb; Lifecycle := Lifecycle sb;
     Versioning := Versioning sb; Website := Website sb; Cors := v;
     Logging := Logging sb; Encryption := Encryption sb; Billing := Billing sb;
     NullFields := NullFields sb |}.

Definition with_Logging (sb : Bucket) (v : option BucketLogging) : Bucket :=
  {| Id := Id sb; SelfLink := SelfLink sb; Name := Name sb; Labels := Labels sb;
     Location := Location sb; StorageClass := StorageClass sb; Lifecycle := Lifecycle sb;
     Versioning := Versioning sb; Website := Website sb; Cors := Cors sb;
     Logging := v; Encryption := Encryption sb; Billing := Billing sb;
     NullFields := NullFields sb |}.

Definition with_Encryption (sb : Bucket) (v : option BucketEncryption) : Bucket :=
  {| Id := Id sb; SelfLink := SelfLink sb; Name := Name sb; Labels := Labels sb;
     Location := Location sb; StorageClass := StorageClass sb; Lifecycle := Lifecycle sb;
     Versioning := Versioning sb; Website := Website sb; Cors := Cors sb;
     Logging := Logging sb; Encryption := v; Billing := Billing sb;
     NullFields := NullFields sb |}.

Definition with_Billing (sb : Bucket) (v : option BucketBilling) : Bucket :=
  {| Id := Id sb; SelfLink := SelfLink sb; Name := Name sb; Labels := Labels sb;
     Location := Location sb; StorageClass := StorageClass sb; Lifecycle := Lifecycle sb;
     Versioning := Versioning sb; Website := Website sb; Cors := Cors sb;
     Logging := Logging sb; Encryption := Encryption sb; Billing := v;
     NullFields := NullFields sb |}.

Definition with_NullFields (sb : Bucket) (v : list string) : Bucket :=
  {| Id := Id sb; SelfLink := SelfLink sb; Name := Name sb; Labels := Labels sb;
     Location := Location sb; StorageClass := StorageClass sb; Lifecycle := Lifecycle sb;
     Versioning := Versioning sb; Website := Website sb; Cors := Cors sb;
     Logging := Logging sb; Encryption := Encryption sb; Billing := Billing sb;
     NullFields := v |}.

(** *** Expanders *)

(** Modelled from the spec: [expandLabels], a helper of this repository
    outside the given sources; it hands the configured ["labels"] map over
    as the request's label map (the spec's "labels" of the BucketSpec). *)
Definition expandLabels (d : ResourceData) : LabelSet :=
  labels (planned d).

(** The loop of [expandCors]: a nil block fails the type assertion
    [raw.(map[string]interface{})]. *)
Fixpoint expand_cors_rules (configured : list (option CorsBlock))
    (corsRules : list BucketCors) : outcome (list BucketCors) :=
  match configured with
  | [] => Ok corsRules
  | None :: _ => Panic nil_conversion
  | Some data :: rest =>
      let corsRule := {| Origin := origin data; Method := method data;
                         ResponseHeader := response_header data;
                         MaxAgeSeconds := max_age_seconds data |} in
      expand_cors_rules rest (corsRules ++ [corsRule])
  end.

Definition expandCors (configured : list (option CorsBlock)) : outcome (list BucketCors) :=
  expand_cors_rules configured [].

(** [encs] is [None] for the nil slice, for which [encs == nil] holds; on
    an empty slice that is not nil, [encs[0]] is out of range. *)
Definition expandBucketEncryption (encs : option (list (option EncryptionBlock)))
  : outcome (option BucketEncryption) :=
  match encs with
  | None => Ok None
  | Some [] => Panic index_out_of_range
  | Some (None :: _) => Ok None
  | Some (Some enc :: _) =>
      match default_kms_key_name enc with
      | None => Ok None
      | Some keyname =>
          if bool_decide (keyname = "") then Ok None
          else Ok (Some {| DefaultKmsKeyName := keyname |})
      end
  end.

Definition expandBucketLogging (loggings : list (option LoggingBlock))
  : outcome BucketLogging :=
  match loggings with
  | [] => Panic index_out_of_range
  | None :: _ => Panic nil_conversion
  | Some logging :: _ =>
      Ok {| LogBucket := log_bucket logging;
            LogObjectPrefix := log_object_prefix logging |}
  end.

Definition expandBucketVersioning (versionings : list (option VersioningBlock))
  : outcome BucketVersioning :=
  match versionings with
  | [] => Panic index_out_of_range
  | None :: _ => Panic nil_conversion
  | Some versioning :: _ =>
      Ok {| Enabled := enabled versioning;
            versioning_ForceSendFields := [] ++ ["Enabled"] |}
  end.

(** *** Lifecycle rules *)

(** The body of the loop of [resourceGCSBucketLifecycleCreateOrUpdate]. *)
Definition expand_lifecycle_rule (lifecycle_rule : LifecycleRuleBlock)
  : outcome BucketLifecycleRule :=
  target_action ←
    match action lifecycle_rule with
    | Some [action] =>
        Ok (Some {| action_Type := default "" (type_ action);
                    action_StorageClass := default "" (storage_class_ action) |})
    | Some _ => Err "Exactly one action is required"
    | None => Ok None
    end;
  target_condition ←
    match condition lifecycle_rule with
    | Some [condition] =>
        Ok (Some {| Age := default 0%Z (age condition);
                    CreatedBefore := default "" (created_before condition);
                    IsLive := is_live condition;
                    MatchesStorageClass := default [] (matches_storage_class condition);
                    NumNewerVersions := default 0%Z (num_newer_versions condition) |})
    | Some _ => Err "Exactly one condition is required"
    | None => Ok None
    end;
  Ok {| Action := target_action; Condition := target_condition |}.

Fixpoint expand_lifecycle_rules (lifecycle_rules : list LifecycleRuleBlock)
    (acc : list BucketLifecycleRule) : outcome (list BucketLifecycleRule) :=
  match lifecycle_rules with
  | [] => Ok acc
  | raw_lifecycle_rule :: rest =>
      target_lifecycle_rule ← expand_lifecycle_rule raw_lifecycle_rule;
      expand_lifecycle_rules rest (acc ++ [target_lifecycle_rule])
  end.

Definition resourceGCSBucketLifecycleCreateOrUpdate (d : ResourceData) (sb : Bucket)
  : outcome Bucket :=
  match GetOk lifecycle_rule d with
  | (lifecycle_rules, true) =>
      rules ← expand_lifecycle_rules lifecycle_rules [];
      Ok (with_Lifecycle sb (Some {| Rule := rules; lifecycle_ForceSendFields := [] |}))
  | (_, false) =>
      Ok (with_Lifecycle sb (Some {| Rule := []; lifecycle_ForceSendFields := ["Rule"] |}))
  end.

(** *** Retry wrappers

    Modelled from the spec: [retry] (of this repository, outside the given
    sources) and the host's [resource.Retry]: the call is made, and made
    again while its error is of a class to retry and the deadline, counted
    as [n] further attempts, allows; the last error is returned. *)
Fixpoint retry_call {A} (call : Remote → Remote * (ApiError + A)) (ev : Event)
    (again : ApiError → bool) (n : nat) (r : Remote)
  : Remote * (ApiError + A) * list Event :=
  let '(r, reply) := call r in
  match reply with
  | inr a => (r, inr a, [ev])
  | inl err =>
      match n with
      | S n' =>
          if again err
          then let '(r, reply, evs) := retry_call call ev again n' r in
               (r, reply, ev :: evs)
          else (r, inl err, [ev])
      | O => (r, inl err, [ev])
      end
  end.

(** *** Create *)

(** The first part of CREATE, up to the insert call: the project and the
    bucket to insert. *)
Definition resourceStorageBucketCreate_request (h : Host) (d : ResourceData)
  : outcome (string * Bucket) :=
  project ← getProject h d;
  let bucket := name (planned d) in
  let location := location (planned d) in
  let sb := with_Labels
              {| Id := ""; SelfLink := ""; Name := bucket; Labels := ∅;
                 Location := location; StorageClass := ""; Lifecycle := None;
                 Versioning := None; Website := None; Cors := [];
                 Logging := None; Encryption := None; Billing := None;
                 NullFields := [] |} (expandLabels d) in
  let sb := if bool_decide (storage_class (planned d) ≠ "")
            then with_StorageClass sb (storage_class (planned d)) else sb in
  sb ← resourceGCSBucketLifecycleCreateOrUpdate d sb;
  sb ← match GetOk versioning d with
       | (v, true) => bv ← expandBucketVersioning v; Ok (with_Versioning sb (Some bv))
       | (_, false) => Ok sb
       end;
  sb ← match GetOk website d with
       | (websites, true) =>
           if bool_decide (1 < length websites)
           then Err website_error
           else match websites with
                | [] => Panic index_out_of_range
                | None :: _ => Panic nil_conversion
                | Some website :: _ =>
                    Ok (with_Website sb
                          (Some {| NotFoundPage := default "" (not_found_page website);
                                   MainPageSuffix := default "" (main_page_suffix website) |}))
                end
       | (_, false) => Ok sb
       end;
  sb ← match GetOk cors d with
       | (v, true) => rules ← expandCors v; Ok (with_Cors sb rules)
       | (_, false) => Ok sb
       end;
  sb ← match GetOk logging d with
       | (v, true) => bl ← expandBucketLogging v; Ok (with_Logging sb (Some bl))
       | (_, false) => Ok sb
       end;
  sb ← match GetOk encryption d with
       | (v, true) => be ← expandBucketEncryption (Some v); Ok (with_Encryption sb be)
       | (_, false) => Ok sb
       end;
  let sb := if requester_pays (planned d)
            then with_Billing sb (Some {| RequesterPays := requester_pays (planned d);
                                          billing_ForceSendFields := [] |})
            else sb in
  Ok (project, sb).

Definition resourceStorageBucketCreate (h : Host) (d : ResourceData) (r : Remote)
  : outcome ResourceData * Remote * list Event :=
  match resourceStorageBucketCreate_request h d with
  | Err e => (Err e, r, [])
  | Panic msg => (Panic msg, r, [])
  | Ok (project, sb) =>
      let '(r, reply, evs) :=
        retry_call (λ r, Buckets_Insert r sb) (BucketsInsert project sb)
                   (isRetryableError h) (retry_attempts h) r in
      match reply with
      | inl err => (Err (Message err), r, evs)
      | inr res =>
          let d := SetId d (Id res) in
          let '(result, r, evs') := resourceStorageBucketRead h d r in
          (result, r, evs ++ evs')
      end
  end.

(** *** Update *)

(** The loop over the old labels: a null marker for each key that the new
    label map lacks. *)
Definition null_removed_labels (new_labels : LabelSet) (old : list (string * string))
    (null_fields : list string) : list string :=
  foldl (λ nf kv, match new_labels !! kv.1 with
                  | Some _ => nf
                  | None => nf ++ ["Labels." +:+ kv.1]
                  end) null_fields old.

(** The first part of UPDATE, up to the patch call: the sparse patch. *)
Definition resourceStorageBucketUpdate_request (d : ResourceData) : outcome Bucket :=
  let sb := empty_bucket in
  sb ← (if HasChange lifecycle_rule d
        then resourceGCSBucketLifecycleCreateOrUpdate d sb
        else Ok sb);
  let sb := if HasChange requester_pays d
            then with_Billing sb (Some {| RequesterPays := requester_pays (planned d);
                                          billing_ForceSendFields := ["RequesterPays"] |})
            else sb in
  sb ← (if HasChange versioning d
        then match GetOk versioning d with
             | (v, true) => bv ← expandBucketVersioning v; Ok (with_Versioning sb (Some bv))
             | (_, false) => Ok sb
             end
        else Ok sb);
  sb ← (if HasChange website d
        then match GetOk website d with
             | (websites, true) =>
                 if bool_decide (1 < length websites)
                 then Err website_error
                 else match websites with
                      | [] | None :: _ =>
                          (* sb.Website.NotFoundPage = "" ; sb.Website.MainPageSuffix = "" *)
                          match Website sb with
                          | None => Panic nil_dereference
                          | Some _ =>
                              Ok (with_Website sb (Some {| NotFoundPage := "";
                                                           MainPageSuffix := "" |}))
                          end
                      | Some website :: _ =>
                          Ok (with_Website sb
                                (Some {| NotFoundPage :=
                                           default "" (not_found_page website);
                                         MainPageSuffix :=
                                           default "" (main_page_suffix website) |}))
                      end
             | (_, false) => Ok sb
             end
        else Ok sb);
  sb ← match GetOk cors d with
       | (v, true) => rules ← expandCors v; Ok (with_Cors sb rules)
       | (_, false) => Ok sb
       end;
  sb ← (if HasChange logging d
        then match GetOk logging d with
             | (v, true) => bl ← expandBucketLogging v; Ok (with_Logging sb (Some bl))
             | (_, false) => Ok (with_NullFields sb (NullFields sb ++ ["Logging"]))
             end
        else Ok sb);
  sb ← (if HasChange encryption d
        then match GetOk encryption d with
             | (v, true) => be ← expandBucketEncryption (Some v); Ok (with_Encryption sb be)
             | (_, false) => Ok (with_NullFields sb (NullFields sb ++ ["Encryption"]))
             end
        else Ok sb);
  let sb := if HasChange labels d
            then
              let sb := with_Labels sb (expandLabels d) in
              let sb := if bool_decide (size (Labels sb) = 0)
                        then with_NullFields sb (NullFields sb ++ ["Labels"])
                        else sb in
              let old := labels (prior d) in
              with_NullFields sb
                (null_removed_labels (Labels sb) (map_to_list old) (NullFields sb))
            else sb in
  Ok sb.

Definition resourceStorageBucketUpdate (h : Host) (d : ResourceData) (r : Remote)
  : outcome ResourceData * Remote * list Event :=
  match resourceStorageBucketUpdate_request d with
  | Err e => (Err e, r, [])
  | Panic msg => (Panic msg, r, [])
  | Ok sb =>
      let '(r, reply) := Buckets_Patch r sb in
      let evs := [BucketsPatch (name (planned d)) sb] in
      match reply with
      | inl err => (Err (Message err), r, evs)
      | inr res =>
          let d := Set_self_link d (SelfLink res) in
          let d := SetId d (Id res) in
          (Ok d, r, evs)
      end
  end.

(** *** The worker pool

    [workerpool.New(maxWorkers)] runs at least one worker.  The submitted
    tasks are taken from the queue in order, at most [maxWorkers] are in
    flight, and which of the calls in flight reaches the service next is
    the host's [schedule] at that call count.  [pool_order] is the order in
    which the tasks' calls are served; [n] counts the tasks left. *)

Definition New (maxWorkers : nat) : nat := Nat.max 1 maxWorkers.

Fixpoint pool_order {T} (n : nat) (maxWorkers : nat) (sched : nat → nat) (step : nat)
    (queue inflight : list T) : list T :=
  match n with
  | O => []
  | S n' =>
      let room := maxWorkers - length inflight in
      let inflight := inflight ++ take room queue in
      let queue := drop room queue in
      let i := sched step mod length inflight in
      match inflight !! i with
      | Some t => t :: pool_order n' maxWorkers sched (S step) queue (delete i inflight)
      | None => []
      end
  end.

(** Submitting [tasks] and [wp.StopWait()]: every task has run on return. *)
Definition StopWait {T} (maxWorkers : nat) (sched : nat → nat) (step : nat)
    (tasks : list T) : list T :=
  pool_order (length tasks) maxWorkers sched step tasks [].

(** *** Delete *)

Definition not_empty_error : string :=
  "Error trying to delete a bucket containing objects without `force_destroy` set to true".

(** The function submitted to the pool for one object version. *)
Definition delete_object (bucket : string) (object : Object) (st : Remote * list Event)
  : Remote * list Event :=
  let '(r, evs) := st in
  match Objects_Delete r object with
  | (r, Some err) =>
      (r, evs ++ [ObjectsDelete bucket object;
                  LogErr ("[ERR] Failed to delete storage object " +:+ obj_Name object
                          +:+ ": " +:+ Message err)])
  | (r, None) => (r, evs ++ [ObjectsDelete bucket object])
  end.

(** The removal of the empty bucket, retried on code 429 only. *)
Definition remove_bucket (h : Host) (bucket : string) (r : Remote)
  : outcome unit * Remote * list Event :=
  let '(r, reply, evs) :=
    retry_call (λ r, let '(r, err) := Buckets_Delete r in
                     (r, match err with Some e => inl e | None => inr tt end))
               (BucketsDelete bucket)
               (λ gerr, bool_decide (Code gerr = 429%Z)) (retry_attempts h) r in
  match reply with
  | inl err => (Err (Message err), r, evs)
  | inr _ => (Ok tt, r, evs)
  end.

(** [fuel] bounds the rounds of the [for] loop; [None] is a loop still
    running when the fuel is spent. *)
Fixpoint resourceStorageBucketDelete (fuel : nat) (h : Host) (d : ResourceData)
    (r : Remote) : option (outcome unit) * Remote * list Event :=
  let bucket := name (planned d) in
  match fuel with
  | O => (None, r, [])
  | S fuel' =>
      match Objects_List r with
      | (r, inl err) => (Some (Err (Message err)), r, [ObjectsList bucket])
      | (r, inr items) =>
          match items with
          | _ :: _ =>
              if force_destroy (planned d)
              then
                let wp := New (NumCPU h - 1) in
                let '(r, evs) :=
                  foldl (λ st object, delete_object bucket object st) (r, [])
                        (StopWait wp (schedule h) (clock r) items) in
                let '(result, r, evs') := resourceStorageBucketDelete fuel' h d r in
                (result, r, ObjectsList bucket :: evs ++ evs')
              else (Some (Err not_empty_error), r, [ObjectsList bucket])
          | [] =>
              let '(result, r, evs) := remove_bucket h bucket r in
              (Some result, r, ObjectsList bucket :: evs)
          end
      end
  end.

(** *** Reading a trace *)

(** The object versions the controller asked the service to delete, in the
    order the calls were served. *)
Definition object_deletes (evs : list Event) : list Object :=
  omap (λ ev, match ev with ObjectsDelete _ o => Some o | _ => None end) evs.

Definition is_BucketsDelete (ev : Event) : bool :=
  match ev with BucketsDelete _ => true | _ => false end.

(** A service that serves every listing and every object deletion. *)
Definition healthy (r : Remote) : Prop :=
  (∀ n, list_err r n = None) ∧ (∀ n o, object_delete_err r n o = None).

(** A service that lists, holds at least one object version, and refuses
    every object deletion (a retention policy, a hold, a missing
    permission). *)
Definition stuck (r : Remote) : Prop :=
  (∀ n, list_err r n = None) ∧
  (∀ n o, is_Some (object_delete_err r n o)) ∧
  objects r ≠ [].

End Bucket.

(** ** Sample inputs *)

Module Samples.
Import Labels.

Definition accepts : string → option string := λ _, None.

(** Provider defaults [{"env": "prod"}]. *)
Definition prod_config : Config :=
  {| DefaultLabels := Some {[ "env" := "prod" ]} |}.

(** A plan for user labels [{"team": "x"}] over a prior state whose
    effective labels hold a label set outside Terraform. *)
Definition foreign_label_diff : ResourceDiff :=
  {| diff_labels := Some {[ "team" := "x" ]};
     diff_state := {[ "terraform_labels" := ∅;
                      "effective_labels" := {[ "goog-managed" := "1" ]} ]};
     diff_new := ∅;
     diff_setnew_err := accepts |}.

(** The spec's example: user labels [{"team": "x"}] on a fresh resource. *)
Definition team_diff : ResourceDiff :=
  {| diff_labels := Some {[ "team" := "x" ]};
     diff_state := ∅;
     diff_new := ∅;
     diff_setnew_err := accepts |}.

Definition with_diff_labels (d : ResourceDiff) (l : option LabelSet) : ResourceDiff :=
  {| diff_labels := l; diff_state := diff_state d; diff_new := diff_new d;
     diff_setnew_err := diff_setnew_err d |}.

(** A resource whose configuration declares the label ["a"]. *)
Definition declared_a : ResourceData :=
  {| rd_fields := {[ "labels" := {[ "a" := "1" ]} ]}; rd_set_err := accepts |}.

End Samples.

Module BucketSamples.
Import Bucket.

Definition config (force : bool) (lbls : LabelSet) (ws : list (option WebsiteBlock))
    (cs : list (option CorsBlock)) (lg : list (option LoggingBlock)) : BucketConfig :=
  {| name := "b"; location := "US"; storage_class := "STANDARD";
     force_destroy := force; labels := lbls; lifecycle_rule := [];
     versioning := []; website := ws; cors := cs; logging := lg;
     encryption := []; requester_pays := false |}.

Definition resource (before after : BucketConfig) : ResourceData :=
  {| prior := before; planned := after; rd_id := "b"; rd_self_link := "" |}.

Definition index_page : WebsiteBlock :=
  {| not_found_page := Some "404.html"; main_page_suffix := Some "index.html" |}.

Definition other_page : WebsiteBlock :=
  {| not_found_page := Some "gone.html"; main_page_suffix := Some "home.html" |}.

Definition any_origin : CorsBlock :=
  {| origin := ["*"]; method := ["GET"]; response_header := []; max_age_seconds := 3600 |}.

Definition access_log : LoggingBlock :=
  {| log_bucket := "logs"; log_object_prefix := "b" |}.

Definition host (cpus : nat) (sched : nat → nat) : Host :=
  {| getProject := λ _, Ok "my-project";
     resourceStorageBucketRead := λ d r, (Ok d, r, []);
     isRetryableError := λ e, bool_decide (Code e = 429%Z);
     retry_attempts := 3;
     NumCPU := cpus;
     schedule := sched |}.

(** A service holding [objs] whose deletions fail as [refuses] says. *)
Definition service (objs : list Object) (page : nat)
    (refuses : nat → Object → option ApiError) : Remote :=
  {| objects := objs; clock := 0; max_results := page;
     list_err := λ _, None;
     object_delete_err := refuses;
     bucket_delete_err := λ _, None;
     insert_err := λ _, None;
     patch_err := λ _, None;
     stored := λ sb, sb |}.

Definition obj (n : string) (g : Z) : Object := {| obj_Name := n; obj_Generation := g |}.

Definition forbidden : ApiError := {| Code := 403; Message := "object is under a hold" |}.

Definition serves_all : nat → Object → option ApiError := λ _ _, None.
Definition refuses_all : nat → Object → option ApiError := λ _ _, Some forbidden.
(** The first two calls served are refused, the later ones are not. *)
Definition refuses_at_first : nat → Object → option ApiError :=
  λ n _, if bool_decide (n < 2)%nat then Some forbidden else None.

Definition plain : BucketConfig := config false ∅ [] [] [].
Definition forced : BucketConfig := config true ∅ [] [] [].
Definition three_versions : list Object := [obj "a" 1; obj "a" 2; obj "c" 1].

(** A bucket with a website, a CORS rule and access logs, all three
    removed from the configuration. *)
Definition all_cleared : ResourceData :=
  resource (config false ∅ [Some index_page] [Some any_origin] [Some access_log]) plain.

(** A website block with no attribute, [website {}], added to a bucket
    that had none: the host hands the block over as nil. *)
Definition empty_website_added : ResourceData :=
  resource plain (config false ∅ [None] [] []).

(** A second website block added. *)
Definition website_added : ResourceData :=
  resource (config false ∅ [Some index_page] [] [])
           (config false ∅ [Some index_page; Some other_page] [] []).

(** Two website blocks already in the prior state, and a label removed. *)
Definition websites_kept_label_removed : ResourceData :=
  resource (config false {[ "a" := "1"; "b" := "2" ]} [Some index_page; Some other_page] [] [])
           (config false {[ "a" := "1" ]} [Some index_page; Some other_page] [] []).

End BucketSamples.

(** ** Reading a bucket back: flatteners, READ and the importer *)

Module BucketRead.
Import Bucket.

Definition flattenCors (corsRules : list BucketCors) : list (option CorsBlock) :=
  (λ corsRule, Some {| origin := Origin corsRule; method := Method corsRule;
                       response_header := ResponseHeader corsRule;
                       max_age_seconds := MaxAgeSeconds corsRule |}) <$> corsRules.

Definition flattenBucketEncryption (enc : option BucketEncryption)
  : list (option EncryptionBlock) :=
  match enc with
  | None => []
  | Some enc => [] ++ [Some {| default_kms_key_name := Some (DefaultKmsKeyName enc) |}]
  end.

Definition flattenBucketLogging (bucketLogging : option BucketLogging)
  : list (option LoggingBlock) :=
  match bucketLogging with
  | None => []
  | Some bucketLogging =>
      [] ++ [Some {| log_bucket := LogBucket bucketLogging;
                     log_object_prefix := LogObjectPrefix bucketLogging |}]
  end.

Definition flattenBucketVersioning (bucketVersioning : option BucketVersioning)
  : list (option VersioningBlock) :=
  match bucketVersioning with
  | None => []
  | Some bucketVersioning => [] ++ [Some {| enabled := Enabled bucketVersioning |}]
  end.

(** A nil [action] is dereferenced. *)
Definition flattenBucketLifecycleRuleAction (action : option BucketLifecycleRuleAction)
  : outcome ActionBlock :=
  match action with
  | None => Panic nil_dereference
  | Some action =>
      Ok {| type_ := Some (action_Type action);
            storage_class_ := Some (action_StorageClass action) |}
  end.

(** A nil [condition] is dereferenced; ["is_live"] is set only when
    [IsLive] is not nil. *)
Definition flattenBucketLifecycleRuleCondition
    (condition : option BucketLifecycleRuleCondition) : outcome ConditionBlock :=
  match condition with
  | None => Panic nil_dereference
  | Some condition =>
      Ok {| age := Some (Age condition);
            created_before := Some (CreatedBefore condition);
            is_live := IsLive condition;
            matches_storage_class := Some (MatchesStorageClass condition);
            num_newer_versions := Some (NumNewerVersions condition) |}
  end.

(** The loop of [flattenBucketLifecycle]; each of the two sets it builds
    holds the one flattened element. *)
Fixpoint flatten_rules (rules : list BucketLifecycleRule) (acc : list LifecycleRuleBlock)
  : outcome (list LifecycleRuleBlock) :=
  match rules with
  | [] => Ok acc
  | rule :: rest =>
      a ← flattenBucketLifecycleRuleAction (Action rule);
      c ← flattenBucketLifecycleRuleCondition (Condition rule);
      flatten_rules rest (acc ++ [{| action := Some [a]; condition := Some [c] |}])
  end.

Definition flattenBucketLifecycle (lifecycle : option BucketLifecycle)
  : outcome (list LifecycleRuleBlock) :=
  match lifecycle with
  | None => Ok []
  | Some lifecycle => flatten_rules (Rule lifecycle) []
  end.

(** What [d.Get] gives back for a lifecycle rule written with [d.Set]: the
    host reads a block through its schema, which gives every key of the
    block, a key the written map lacks at the zero value of its type (the
    ["is_live"] that [flattenBucketLifecycleRuleCondition] leaves out comes
    back as [false]).  The maps the other flatteners build hold every key of
    their blocks. *)
Definition read_back_action (a : ActionBlock) : ActionBlock :=
  {| type_ := Some (default "" (type_ a));
     storage_class_ := Some (default "" (storage_class_ a)) |}.

Definition read_back_condition (c : ConditionBlock) : ConditionBlock :=
  {| age := Some (default 0%Z (age c));
     created_before := Some (default "" (created_before c));
     is_live := Some (default false (is_live c));
     matches_storage_class := Some (default [] (matches_storage_class c));
     num_newer_versions := Some (default 0%Z (num_newer_versions c)) |}.

Definition read_back_rule (rule : LifecycleRuleBlock) : LifecycleRuleBlock :=
  {| action := Some (read_back_action <$> default [] (action rule));
     condition := Some (read_back_condition <$> default [] (condition rule)) |}.

(** A rule of the API with the liveness test that a rule has after it has
    gone through the state: [IsLive] nil has become a pointer to [false]. *)
Definition with_is_live (rule : BucketLifecycleRule) : BucketLifecycleRule :=
  {| Action := Action rule;
     Condition :=
       (λ c, {| Age := Age c; CreatedBefore := CreatedBefore c;
                IsLive := Some (default false (IsLive c));
                MatchesStorageClass := MatchesStorageClass c;
                NumNewerVersions := NumNewerVersions c |}) <$> Condition rule |}.

(** The condition of the rule tests the liveness: [IsLive] is not nil. *)
Definition tests_liveness (rule : BucketLifecycleRule) : Prop :=
  ∀ c, Condition rule = Some c → is_Some (IsLive c).

(** A lifecycle rule of the configuration that passes the validation: its
    action set and its condition set, when present, hold one element. *)
Definition one_action_one_condition (rule : LifecycleRuleBlock) : Prop :=
  (∀ actions, action rule = Some actions → length actions = 1) ∧
  (∀ conditions, condition rule = Some conditions → length conditions = 1).

(** A rule of the API that READ can flatten. *)
Definition has_action_and_condition (rule : BucketLifecycleRule) : Prop :=
  is_Some (Action rule) ∧ is_Some (Condition rule).

(** The resource as READ and the importer see it: the fields of [d], with
    the two computed ones that the configuration record has no place for. *)
Record State : Type := {
  data : ResourceData;
  project : string;
  url : string
}.

(** [d.Set] on each field that READ and the importer write: the value
    [d.Get] returns from then on. *)
Definition Set_config (st : State) (f : BucketConfig → BucketConfig) : State :=
  {| data := {| prior := prior (data st); planned := f (planned (data st));
                rd_id := rd_id (data st); rd_self_link := rd_self_link (data st) |};
     project := project st; url := url st |}.

Definition Set_name (v : string) (c : BucketConfig) : BucketConfig :=
  {| name := v; location := location c; storage_class := storage_class c;
     force_destroy := force_destroy c; labels := labels c;
     lifecycle_rule := lifecycle_rule c; versioning := versioning c;
     website := website c; cors := cors c; logging := logging c;
     encryption := encryption c; requester_pays := requester_pays c |}.

Definition Set_force_destroy (v : bool) (c : BucketConfig) : BucketConfig :=
  {| name := name c; location := location c; storage_class := storage_class c;
     force_destroy := v; labels := labels c;
     lifecycle_rule := lifecycle_rule c; versioning := versioning c;
     website := website c; cors := cors c; logging := logging c;
     encryption := encryption c; requester_pays := requester_pays c |}.

Definition Set_storage_class (v : string) (c : BucketConfig) : BucketConfig :=
  {| name := name c; location := location c; storage_class := v;
     force_destroy := force_destroy c; labels := labels c;
     lifecycle_rule := lifecycle_rule c; versioning := versioning c;
     website := website c; cors := cors c; logging := logging c;
     encryption := encryption c; requester_pays := requester_pays c |}.

Definition Set_encryption (v : list (option EncryptionBlock)) (c : BucketConfig)
  : BucketConfig :=
  {| name := name c; location := location c; storage_class := storage_class c;
     force_destroy := force_destroy c; labels := labels c;
     lifecycle_rule := lifecycle_rule c; versioning := versioning c;
     website := website c; cors := cors c; logging := logging c;
     encryption := v; requester_pays := requester_pays c |}.

Definition Set_location (v : string) (c : BucketConfig) : BucketConfig :=
  {| name := name c; location := v; storage_class := storage_class c;
     force_destroy := force_destroy c; labels := labels c;
     lifecycle_rule := lifecycle_rule c; versioning := versioning c;
     website := website c; cors := cors c; logging := logging c;
     encryption := encryption c; requester_pays := requester_pays c |}.

Definition Set_cors (v : list (option CorsBlock)) (c : BucketConfig) : BucketConfig :=
  {| name := name c; location := location c; storage_class := storage_class c;
     force_destroy := force_destroy c; labels := labels c;
     lifecycle_rule := lifecycle_rule c; versioning := versioning c;
     website := website c; cors := v; logging := logging c;
     encryption := encryption c; requester_pays := requester_pays c |}.

Definition Set_logging (v : list (option LoggingBlock)) (c : BucketConfig) : BucketConfig :=
  {| name := name c; location := location c; storage_class := storage_class c;
     force_destroy := force_destroy c; labels := labels c;
     lifecycle_rule := lifecycle_rule c; versioning := versioning c;
     website := website c; cors := cors c; logging := v;
     encryption := encryption c; requester_pays := requester_pays c |}.

Definition Set_versioning (v : list (option VersioningBlock)) (c : BucketConfig)
  : BucketConfig :=
  {| name := name c; location := location c; storage_class := storage_class c;
     force_destroy := force_destroy c; labels := labels c;
     lifecycle_rule := lifecycle_rule c; versioning := v;
     website := website c; cors := cors c; logging := logging c;
     encryption := encryption c; requester_pays := requester_pays c |}.

Definition Set_lifecycle_rule (v : list LifecycleRuleBlock) (c : BucketConfig)
  : BucketConfig :=
  {| name := name c; location := location c; storage_class := storage_class c;
     force_destroy := force_destroy c; labels := labels c;
     lifecycle_rule := v; versioning := versioning c;
     website := website c; cors := cors c; logging := logging c;
     encryption := encryption c; requester_pays := requester_pays c |}.

Definition Set_labels (v : LabelSet) (c : BucketConfig) : BucketConfig :=
  {| name := name c; location := location c; storage_class := storage_class c;
     force_destroy := force_destroy c; labels := v;
     lifecycle_rule := lifecycle_rule c; versioning := versioning c;
     website := website c; cors := cors c; logging := logging c;
     encryption := encryption c; requester_pays := requester_pays c |}.

Definition Set_requester_pays (v : bool) (c : BucketConfig) : BucketConfig :=
  {| name := name c; location := location c; storage_class := storage_class c;
     force_destroy := force_destroy c; labels := labels c;
     lifecycle_rule := lifecycle_rule c; versioning := versioning c;
     website := website c; cors := cors c; logging := logging c;
     encryption := encryption c; requester_pays := v |}.

Definition Set_project (st : State) (v : string) : State :=
  {| data := data st; project := v; url := url st |}.

Definition Set_url (st : State) (v : string) : State :=
  {| data := data st; project := project st; url := v |}.

Definition Set_data (st : State) (d : ResourceData) : State :=
  {| data := d; project := project st; url := url st |}.

(** What READ is given: the answers of [Buckets.Get] (the bucket and its
    project number) and of [Projects.Get] (the project's name),
    [handleNotFoundError], a helper of the provider outside these sources,
    and the quoting of [fmt.Sprintf]'s [%q]. *)
Record Reader : Type := {
  Buckets_Get : string → ApiError + (Bucket * N);
  Projects_Get : string → ApiError + string;
  handleNotFoundError : ApiError → State → string → outcome State;
  quoted : string → string
}.

Inductive Call : Type :=
  | BucketsGet (bucket : string)
  | ProjectsGet (number : string).

Definition resourceStorageBucketRead (rd : Reader) (d : State)
  : outcome State * list Call :=
  let bucket := name (planned (data d)) in
  match Buckets_Get rd bucket with
  | inl err =>
      (handleNotFoundError rd err d ("Storage Bucket " +:+ quoted rd bucket),
       [BucketsGet bucket])
  | inr (res, ProjectNumber) =>
      let lookup : outcome State * list Call :=
        if bool_decide (project d = "")
        then match Projects_Get rd (pretty ProjectNumber) with
             | inl err => (Err (Message err), [ProjectsGet (pretty ProjectNumber)])
             | inr proj_Name =>
                 (Ok (Set_project d proj_Name), [ProjectsGet (pretty ProjectNumber)])
             end
        else (Ok d, []) in
      match lookup with
      | (Ok d, calls) =>
          let d := Set_data d (Set_self_link (data d) (SelfLink res)) in
          let d := Set_url d ("gs://" +:+ bucket) in
          let d := Set_config d (Set_storage_class (StorageClass res)) in
          let d := Set_config d (Set_encryption (flattenBucketEncryption (Encryption res))) in
          let d := Set_config d (Set_location (Location res)) in
          let d := Set_config d (Set_cors (flattenCors (Cors res))) in
          let d := Set_config d (Set_logging (flattenBucketLogging (Logging res))) in
          let d := Set_config d (Set_versioning (flattenBucketVersioning (Versioning res))) in
          match flattenBucketLifecycle (Lifecycle res) with
          | Ok rules =>
              let d := Set_config d (Set_lifecycle_rule (read_back_rule <$> rules)) in
              let d := Set_config d (Set_labels (Labels res)) in
              let d := match Billing res with
                       | None => Set_config d (Set_requester_pays false)
                       | Some billing =>
                           Set_config d (Set_requester_pays (RequesterPays billing))
                       end in
              let d := Set_data d (SetId (data d) (Id res)) in
              (Ok d, BucketsGet bucket :: calls)
          | Err e => (Err e, BucketsGet bucket :: calls)
          | Panic msg => (Panic msg, BucketsGet bucket :: calls)
          end
      | (Err e, calls) => (Err e, BucketsGet bucket :: calls)
      | (Panic msg, calls) => (Panic msg, BucketsGet bucket :: calls)
      end
  end.

(** The importer: the one resource it returns. *)
Definition resourceStorageBucketStateImporter (d : State) : State :=
  let d := Set_config d (Set_name (rd_id (data d))) in
  let d := Set_config d (Set_force_destroy false) in
  d.

End BucketRead.

(** ** Label reconciliation inside a metadata block *)

Module MetadataLabels.
Import Labels.

(** A value of the block's [map[string]interface{}]: a label map, or an
    attribute of another type. *)
Inductive value : Type :=
  | VLabels (m : LabelSet)
  | VOther (s : string).

Abbreviation Block := (gmap string value).

(** [schema.ResourceDiff] of a resource with a ["metadata"] list: the list
    in the prior state, the planned list (what [d.Get("metadata")] gives),
    and the answer of [SetNew] for a key. *)
Record ResourceDiff : Type := {
  metadata_state : list (option Block);
  metadata : list (option Block);
  setnew_err : string → option string
}.

(** [d.Get("metadata.0.<key>")] on a list: nil when the block has no such
    map. *)
Definition Get_0 (l : list (option Block)) (key : string) : option LabelSet :=
  match l with
  | Some block :: _ =>
      match block !! key with
      | Some (VLabels m) => Some m
      | _ => None
      end
  | _ => None
  end.

(** [d.SetNew("metadata", v)]. *)
Definition SetNew (d : ResourceDiff) (v : list (option Block)) : outcome ResourceDiff :=
  match setnew_err d "metadata" with
  | Some e => Err e
  | None => Ok {| metadata_state := metadata_state d; metadata := v;
                  setnew_err := setnew_err d |}
  end.

Definition SetMetadataLabelsDiff (config : Config) (d : ResourceDiff)
  : outcome ResourceDiff :=
  let l := metadata d in
  match l with
  | [] | None :: _ => Ok d
  | Some original :: _ =>
      match Get_0 (metadata d) "labels" with
      | None => Ok d
      | Some labels =>
          let terraformLabels := overlay (default ∅ (DefaultLabels config)) ∅ in
          let terraformLabels := overlay labels terraformLabels in
          let original := <["terraform_labels" := VLabels terraformLabels]> original in
          match SetNew d [Some original] with
          | Err e => Err ("error setting new metadata diff: " +:+ e)
          | Panic msg => Panic msg
          | Ok d =>
              let o := default ∅ (Get_0 (metadata_state d) "terraform_labels") in
              let n := default ∅ (Get_0 (metadata d) "terraform_labels") in
              let effectiveLabels := default ∅ (Get_0 (metadata d) "effective_labels") in
              let effectiveLabels := overlay n effectiveLabels in
              let effectiveLabels := prune o n effectiveLabels in
              let original := <["effective_labels" := VLabels effectiveLabels]> original in
              match SetNew d [Some original] with
              | Err e => Err ("error setting new metadata diff: " +:+ e)
              | Panic msg => Panic msg
              | Ok d => Ok d
              end
          end
      end
  end.

(** The same plan seen as one of a resource with top-level label fields:
    the block's labels as the configured labels, its maps as the prior
    state. *)
Definition top_level (d : ResourceDiff) : Labels.ResourceDiff :=
  {| diff_labels := Get_0 (metadata d) "labels";
     diff_state :=
       {[ "terraform_labels" := default ∅ (Get_0 (metadata_state d) "terraform_labels");
          "effective_labels" := default ∅ (Get_0 (metadata d) "effective_labels") ]};
     diff_new := ∅;
     diff_setnew_err := λ _, setnew_err d "metadata" |}.

(** The host persisting the plan: the planned list is the prior state of
    the next plan, under the same configuration. *)
Definition commit (d : ResourceDiff) : ResourceDiff :=
  {| metadata_state := metadata d; metadata := metadata d;
     setnew_err := setnew_err d |}.

End MetadataLabels.

Module MetadataSamples.
Import MetadataLabels.

(** A metadata block that names the resource and declares one label. *)
Definition web_block : Block :=
  {[ "labels" := VLabels {[ "team" := "x" ]}; "name" := VOther "web" ]}.

Definition web_diff : ResourceDiff :=
  {| metadata_state := []; metadata := [Some web_block];
     setnew_err := Samples.accepts |}.

(** The same with a second, empty block. *)
Definition web_diff_two : ResourceDiff :=
  {| metadata_state := []; metadata := [Some web_block; None];
     setnew_err := Samples.accepts |}.

End MetadataSamples.

Module ReadSamples.
Import Bucket BucketRead BucketSamples.

(** Delete objects older than 30 days, as the host hands the block over:
    every key of the schema is there, the unset ones at their zero value. *)
Definition expire_rule : LifecycleRuleBlock :=
  {| action := Some [{| type_ := Some "Delete"; storage_class_ := Some "" |}];
     condition := Some [{| age := Some 30%Z; created_before := Some "";
                           is_live := Some false;
                           matches_storage_class := Some [];
                           num_newer_versions := Some 0%Z |}] |}.

(** A rule with two actions. *)
Definition two_actions_rule : LifecycleRuleBlock :=
  {| action := Some [{| type_ := Some "Delete"; storage_class_ := Some "" |};
                     {| type_ := Some "SetStorageClass";
                        storage_class_ := Some "NEARLINE" |}];
     condition := condition expire_rule |}.

Definition with_rules (rules : list LifecycleRuleBlock) : ResourceData :=
  resource plain (Set_lifecycle_rule rules plain).

(** The same rule as the service holds it, without a liveness test. *)
Definition api_expire_rule : BucketLifecycleRule :=
  {| Action := Some {| action_Type := "Delete"; action_StorageClass := "" |};
     Condition := Some {| Age := 30; CreatedBefore := ""; IsLive := None;
                          MatchesStorageClass := []; NumNewerVersions := 0 |} |}.

(** A bucket as the service returns it. *)
Definition remote_bucket : Bucket :=
  {| Id := "b"; SelfLink := "https://www.googleapis.com/storage/v1/b/b"; Name := "b";
     Labels := {[ "team" := "x"; "goog-managed" := "1" ]};
     Location := "EU"; StorageClass := "NEARLINE";
     Lifecycle := Some {| Rule := [api_expire_rule]; lifecycle_ForceSendFields := [] |};
     Versioning := Some {| Enabled := true; versioning_ForceSendFields := [] |};
     Website := None;
     Cors := [{| Origin := ["*"]; Method := ["GET"]; ResponseHeader := [];
                 MaxAgeSeconds := 3600 |}];
     Logging := Some {| LogBucket := "logs"; LogObjectPrefix := "b" |};
     Encryption := None; Billing := None; NullFields := [] |}.

Definition reader : Reader :=
  {| Buckets_Get := λ _, inr (remote_bucket, 42%N);
     Projects_Get := λ _, inr "my-project";
     handleNotFoundError := λ err _ _, Err (Message err);
     quoted := λ s, s |}.

(** A resource with a website block and no project, as after an import. *)
Definition imported : State :=
  {| data := resource plain (config false ∅ [Some index_page] [] []);
     project := ""; url := "" |}.

End ReadSamples.

Module DeleteSamples.
Import Bucket BucketSamples.

(** An empty bucket whose deletion the service answers with [code] every
    time. *)
Definition refusing_bucket_deletion (code : Z) : Remote :=
  {| objects := []; clock := 0; max_results := 1000;
     list_err := λ _, None;
     object_delete_err := serves_all;
     bucket_delete_err := λ _, Some {| Code := code; Message := "not now" |};
     insert_err := λ _, None;
     patch_err := λ _, None;
     stored := λ sb, sb |}.



(** The one lifecycle rule of the bucket is removed. *)
Definition rules_removed : ResourceData :=
  resource (BucketRead.Set_lifecycle_rule [ReadSamples.expire_rule] plain) plain.

End DeleteSamples.

(** * Properties *)

(** ** Loops over maps *)

Section map_loops.
Implicit Types (l : list (string * string)) (acc src o n : LabelSet) (k : string).

Lemma overlay_entries_union l acc :
  NoDup l.*1 → overlay_entries l acc = list_to_map l ∪ acc.
Proof.
  revert acc. induction l as [|[k v] l IH]; intros acc Hnd; simpl.
  - by rewrite (left_id_L ∅ (∪)).
  - apply NoDup_cons in Hnd as [Hk Hnd].
    rewrite IH by done. rewrite <- insert_union_l.
    by rewrite insert_union_r by by apply not_elem_of_list_to_map_1.
Qed.

(** Whatever order the entries of [src] are visited in, the loop leaves
    [src] laid over [acc]. *)
Lemma overlay_entries_perm l src acc :
  l ≡ₚ map_to_list src → overlay_entries l acc = src ∪ acc.
Proof.
  intros Hp.
  assert (NoDup l.*1) as Hnd.
  { rewrite Hp. apply NoDup_fst_map_to_list. }
  rewrite overlay_entries_union by done.
  f_equal. rewrite (list_to_map_proper _ _ Hnd Hp).
  apply list_to_map_to_list.
Qed.

Lemma overlay_union src acc : overlay src acc = src ∪ acc.
Proof. by apply overlay_entries_perm. Qed.

Lemma prune_entries_lookup n l acc k :
  prune_entries n l acc !! k =
    match n !! k with
    | Some _ => acc !! k
    | None => if decide (k ∈ l.*1) then None else acc !! k
    end.
Proof.
  revert acc. induction l as [|[k' v'] l IH]; intros acc.
  - cbn. destruct (n !! k); [done|]. case_decide as Hin; [|done].
    by apply elem_of_nil in Hin.
  - change (prune_entries n ((k', v') :: l) acc)
      with (prune_entries n l (match n !! k' with Some _ => acc | None => delete k' acc end)).
    rewrite IH. rewrite fmap_cons. cbn [fst].
    destruct (n !! k) as [w|] eqn:Hk.
    + destruct (n !! k') eqn:Hk'; [done|].
      rewrite lookup_delete_ne; [done|]. congruence.
    + destruct (decide (k = k')) as [->|Hne].
      * rewrite Hk, lookup_delete_eq.
        destruct (decide (k' ∈ k' :: l.*1)) as [_|Hout];
          [|by exfalso; apply Hout, elem_of_cons; left].
        by destruct (decide (k' ∈ l.*1)).
      * replace ((match n !! k' with Some _ => acc | None => delete k' acc end) !! k)
          with (acc !! k)
          by (destruct (n !! k'); [done|]; by rewrite lookup_delete_ne).
        destruct (decide (k ∈ l.*1)) as [Hin|Hin], (decide (k ∈ k' :: l.*1)) as [Hin'|Hin'];
          try done;
          [ exfalso; apply Hin', elem_of_cons; by right
          | by apply elem_of_cons in Hin' as [?|?] ].
Qed.

Lemma prune_lookup o n acc k :
  prune o n acc !! k =
    match n !! k with
    | Some _ => acc !! k
    | None => match o !! k with Some _ => None | None => acc !! k end
    end.
Proof.
  unfold prune. rewrite prune_entries_lookup.
  destruct (n !! k); [done|].
  destruct (o !! k) as [v|] eqn:Ho.
  - rewrite decide_True; [done|].
    apply list_elem_of_fmap. exists (k, v). split; [done|].
    by apply elem_of_map_to_list.
  - rewrite decide_False; [done|].
    intros [[k' v] [-> Hin]]%list_elem_of_fmap.
    apply elem_of_map_to_list in Hin. simpl in *. congruence.
Qed.

(** The keys of the new map survive the deletion loop with their values. *)
Lemma prune_keeps_new o n acc k v :
  n !! k = Some v → prune o n (n ∪ acc) !! k = Some v.
Proof.
  intros Hn. rewrite prune_lookup, Hn. by apply lookup_union_Some_l.
Qed.

(** Laying [n] over a map that already agrees with it, and pruning with
    no key to drop, changes nothing. *)
Lemma prune_overlay_fixed n acc :
  (∀ k v, n !! k = Some v → acc !! k = Some v) → prune n n (n ∪ acc) = acc.
Proof.
  intros Hagree. apply map_eq; intros k. rewrite prune_lookup.
  destruct (n !! k) as [v|] eqn:Hn.
  - rewrite (lookup_union_Some_l _ _ _ _ Hn). symmetry. by apply Hagree.
  - by rewrite lookup_union_r.
Qed.

Lemma project_entries_lookup (labels : LabelSet) l acc k :
  Labels.project_entries labels l acc !! k =
    if decide (k ∈ l.*1) then Some (Labels.index labels k) else acc !! k.
Proof.
  revert acc. induction l as [|[k' v'] l IH]; intros acc.
  - cbn. case_decide as Hin; [|done]. by apply elem_of_nil in Hin.
  - change (Labels.project_entries labels ((k', v') :: l) acc)
      with (Labels.project_entries labels l (<[k' := Labels.index labels k']> acc)).
    rewrite IH. rewrite fmap_cons. cbn [fst].
    destruct (decide (k = k')) as [->|Hne].
    + rewrite lookup_insert_eq.
      destruct (decide (k' ∈ k' :: l.*1)) as [_|Hout];
          [|by exfalso; apply Hout, elem_of_cons; left].
      by destruct (decide (k' ∈ l.*1)).
    + rewrite lookup_insert_ne by done.
      destruct (decide (k ∈ l.*1)) as [Hin|Hin], (decide (k ∈ k' :: l.*1)) as [Hin'|Hin'];
          try done;
          [ exfalso; apply Hin', elem_of_cons; by right
          | by apply elem_of_cons in Hin' as [?|?] ].
Qed.
End map_loops.

(** ** Label reconciliation *)

Section label_reconciliation.
Import Labels.
Implicit Types (cfg : Config) (d : ResourceDiff) (U : LabelSet).

(** What a successful run with a non-nil ["labels"] plans. *)
Lemma SetLabelsDiff_Ok cfg d d' U :
  diff_labels d = Some U →
  SetLabelsDiff cfg d = Ok d' →
  let T := U ∪ default ∅ (DefaultLabels cfg) in
  let o := default ∅ (diff_state d !! "terraform_labels") in
  diff_setnew_err d "terraform_labels" = None ∧
  diff_setnew_err d "effective_labels" = None ∧
  d' = {| diff_labels := Some U;
          diff_state := diff_state d;
          diff_new := <["effective_labels" := prune o T (T ∪ Get d "effective_labels")]>
                        (<["terraform_labels" := T]> (diff_new d));
          diff_setnew_err := diff_setnew_err d |}.
Proof.
  intros HU. unfold SetLabelsDiff, SetNew. rewrite HU. cbn [diff_setnew_err].
  destruct (diff_setnew_err d "terraform_labels") eqn:E1; [done|].
  unfold GetChange, Get. cbn [diff_new diff_state diff_setnew_err diff_labels fst snd].
  rewrite lookup_insert_eq, lookup_insert_ne by done.
  destruct (diff_setnew_err d "effective_labels") eqn:E2; [done|].
  intros [= <-]. by rewrite !overlay_union, (right_id_L ∅ (∪)).
Qed.

Lemma SetLabelsDiff_accepted cfg d U :
  diff_labels d = Some U →
  diff_setnew_err d "terraform_labels" = None →
  diff_setnew_err d "effective_labels" = None →
  ∃ d', SetLabelsDiff cfg d = Ok d'.
Proof.
  intros HU E1 E2. unfold SetLabelsDiff, SetNew. rewrite HU. cbn [diff_setnew_err].
  rewrite E1. cbn [GetChange Get diff_new diff_state diff_setnew_err diff_labels fst snd].
  rewrite E2. eauto.
Qed.

Lemma Get_planned d key v (m : gmap string LabelSet) st e l :
  Get {| diff_labels := l; diff_state := st; diff_new := <[key := v]> m;
         diff_setnew_err := e |} key = v.
Proof. unfold Get. cbn. by rewrite lookup_insert_eq. Qed.

Lemma Get_planned_ne d key key' v (m : gmap string LabelSet) st e l :
  key ≠ key' →
  Get {| diff_labels := l; diff_state := st; diff_new := <[key' := v]> m;
         diff_setnew_err := e |} key
  = Get {| diff_labels := l; diff_state := st; diff_new := m;
           diff_setnew_err := e |} key.
Proof. intros Hne. unfold Get. cbn. by rewrite lookup_insert_ne. Qed.

Lemma Get_commit d key : Get (commit d) key = Get d key.
Proof.
  unfold Get, commit. cbn. rewrite lookup_empty.
  destruct (diff_new d !! key) as [v|] eqn:Hn.
  - by rewrite (lookup_union_Some_l _ _ _ _ Hn).
  - by rewrite lookup_union_r.
Qed.

(** C1 (amended): a successful reconciliation plans terraform_labels as
    the user labels laid over the default labels, and effective_labels as
    that same map laid over the prior effective labels from which the
    keys of the prior terraform_labels that the new map lacks have been
    dropped.  Keys of the prior effective labels that the prior
    terraform_labels did not track stay; when there are none, the
    effective labels are exactly defaults ∪ user labels.  A key of the
    prior terraform_labels that the user labels no longer hold is removed,
    unless the defaults hold it, and then it carries the default's value. *)
Theorem SetLabelsDiff_effective_labels cfg d d' U :
  diff_labels d = Some U →
  SetLabelsDiff cfg d = Ok d' →
  Get d' "terraform_labels" = U ∪ default ∅ (DefaultLabels cfg) ∧
  (∀ k, Get d' "effective_labels" !! k =
          match (U ∪ default ∅ (DefaultLabels cfg)) !! k with
          | Some v => Some v
          | None =>
              match (GetChange d "terraform_labels").1 !! k with
              | Some _ => None
              | None => Get d "effective_labels" !! k
              end
          end) ∧
  (dom (Get d "effective_labels") ⊆ dom (GetChange d "terraform_labels").1 →
   Get d' "effective_labels" = U ∪ default ∅ (DefaultLabels cfg)) ∧
  (∀ k, is_Some ((GetChange d "terraform_labels").1 !! k) →
        U !! k = None →
        Get d' "effective_labels" !! k = default ∅ (DefaultLabels cfg) !! k).
Proof.
  intros HU Hrun.
  destruct (SetLabelsDiff_Ok _ _ _ _ HU Hrun) as (_ & _ & ->).
  set (T := U ∪ default ∅ (DefaultLabels cfg)).
  cbn [GetChange fst].
  set (o := default ∅ (diff_state d !! "terraform_labels")).
  assert (∀ k, prune o T (T ∪ Get d "effective_labels") !! k =
               match T !! k with
               | Some v => Some v
               | None => match o !! k with
                         | Some _ => None
                         | None => Get d "effective_labels" !! k
                         end
               end) as Hlook.
  { intros k. rewrite prune_lookup.
    destruct (T !! k) as [v|] eqn:HT.
    - by rewrite (lookup_union_Some_l _ _ _ _ HT).
    - by rewrite lookup_union_r. }
  rewrite Get_planned_ne, !Get_planned by done.
  split_and!; [done|done| |].
  - intros Hdom. apply map_eq; intros k. rewrite Hlook.
    destruct (T !! k) as [v|] eqn:HT; [done|].
    destruct (o !! k) as [w|] eqn:Ho; [done|].
    apply not_elem_of_dom. intros Hin. apply Hdom in Hin.
    by apply not_elem_of_dom in Ho.
  - intros k [w Ho] HUk. rewrite Hlook, Ho. subst T.
    rewrite lookup_union_r by done. by destruct (default ∅ (DefaultLabels cfg) !! k).
Qed.

(** C6: reconciling once more after the plan has been persisted, under
    the same configuration, changes neither terraform_labels nor
    effective_labels. *)
Theorem SetLabelsDiff_idempotent cfg d d1 :
  SetLabelsDiff cfg d = Ok d1 →
  ∃ d2, SetLabelsDiff cfg (commit d1) = Ok d2 ∧
        Get d2 "terraform_labels" = Get d1 "terraform_labels" ∧
        Get d2 "effective_labels" = Get d1 "effective_labels".
Proof.
  intros Hrun. destruct (diff_labels d) as [U|] eqn:HU.
  - destruct (SetLabelsDiff_Ok _ _ _ _ HU Hrun) as (E1 & E2 & Hd1).
    assert (diff_labels (commit d1) = Some U) as HU' by by subst d1.
    destruct (SetLabelsDiff_accepted cfg (commit d1) U HU') as [d2 Hrun2];
      [by subst d1..|].
    exists d2. split; [done|].
    destruct (SetLabelsDiff_Ok _ _ _ _ HU' Hrun2) as (_ & _ & ->).
    rewrite Get_planned_ne, !Get_planned by done.
    assert (∀ key, default ∅ (diff_state (commit d1) !! key) = Get d1 key) as Hst.
    { intros key. rewrite <- (Get_commit d1 key). unfold Get. by cbn. }
    rewrite Hst. rewrite (Get_commit d1 "effective_labels").
    subst d1. rewrite Get_planned_ne, !Get_planned by done.
    split; [done|].
    apply prune_overlay_fixed. intros k v. apply prune_keeps_new.
  - unfold SetLabelsDiff in Hrun. rewrite HU in Hrun. injection Hrun as <-.
    exists (commit d). unfold SetLabelsDiff. cbn [commit diff_labels]. rewrite HU.
    by rewrite !Get_commit.
Qed.

Import Samples.

Lemma SetLabelsDiff_effective_labels_witness :
  ∃ d', SetLabelsDiff prod_config team_diff = Ok d' ∧
        Get d' "effective_labels" = {[ "team" := "x" ]} ∪ {[ "env" := "prod" ]}.
Proof.
  eexists. split; [reflexivity|].
  refine (proj1 (proj2 (proj2
    (SetLabelsDiff_effective_labels prod_config team_diff _ {[ "team" := "x" ]}
       eq_refl eq_refl))) _).
  vm_compute. intros k Hk. exact Hk.
Defined.

(** C1 (as stated) fails: a label the prior effective labels hold and the
    prior terraform_labels do not track stays in the planned effective
    labels, which are then not defaults ∪ user labels. *)
Lemma SetLabelsDiff_keeps_foreign_label :
  ∃ d', SetLabelsDiff prod_config foreign_label_diff = Ok d' ∧
        Get d' "effective_labels" ≠ {[ "team" := "x" ]} ∪ {[ "env" := "prod" ]} ∧
        Get d' "effective_labels" !! "goog-managed" = Some "1".
Proof.
  eexists. split; [reflexivity|]. split; [|by vm_compute].
  intros Heq. apply (f_equal (λ m : LabelSet, m !! "goog-managed")) in Heq.
  vm_compute in Heq. discriminate.
Qed.

Lemma SetLabelsDiff_idempotent_witness :
  ∃ d1 d2, SetLabelsDiff prod_config foreign_label_diff = Ok d1 ∧
           SetLabelsDiff prod_config (commit d1) = Ok d2 ∧
           Get d2 "terraform_labels" = Get d1 "terraform_labels" ∧
           Get d2 "effective_labels" = Get d1 "effective_labels".
Proof.
  edestruct (SetLabelsDiff_idempotent prod_config foreign_label_diff)
    as (d2 & H2 & Ht & He); [vm_compute; reflexivity|].
  refine (ex_intro _ _ (ex_intro _ d2 (conj _ (conj H2 (conj Ht He))))).
  vm_compute. reflexivity.
Defined.

(** The spec's example: defaults [{"env": "prod"}] and user labels
    [{"team": "x"}] give both labels; a next plan with no user label
    leaves the default alone. *)
Example SetLabelsDiff_env_team :
  ∃ d1 d2, SetLabelsDiff prod_config team_diff = Ok d1 ∧
           map_to_list (Get d1 "effective_labels") = [("env", "prod"); ("team", "x")] ∧
           SetLabelsDiff prod_config (with_diff_labels (commit d1) (Some ∅)) = Ok d2 ∧
           map_to_list (Get d2 "effective_labels") = [("env", "prod")].
Proof.
  eexists. eexists.
  split; [vm_compute; reflexivity|].
  split; [vm_compute; reflexivity|].
  split; vm_compute; reflexivity.
Qed.
End label_reconciliation.

(** ** Read-side projection and nil inputs *)

Section label_projection.
Import Labels Samples.
Implicit Types (d : ResourceData) (labels : option LabelSet) (lineage : string).

Lemma SetLabels_total labels d lineage :
  ∃ transformed, SetLabels labels d lineage = Set_ d lineage transformed ∧
                 dom transformed ⊆ dom (GetOk d lineage).1.
Proof.
  unfold SetLabels. cbn [GetOk fst].
  destruct (bool_decide _); [destruct labels as [L|]|].
  - eexists. split; [done|]. intros k [v Hk]%elem_of_dom.
    rewrite project_entries_lookup in Hk.
    destruct (decide _) as [Hin|]; [|by rewrite lookup_empty in Hk].
    apply list_elem_of_fmap in Hin as [[k' v'] [-> Hin]].
    apply elem_of_map_to_list in Hin. by apply elem_of_dom.
  - exists ∅. split; [done|]. by rewrite dom_empty_L.
  - exists ∅. split; [done|]. by rewrite dom_empty_L.
Qed.

(** C5: whatever the remote read returned, the label map written to the
    state under [lineage] has no key outside the declared map. *)
Theorem SetLabels_keys_declared labels d lineage d' :
  SetLabels labels d lineage = Ok d' →
  dom (default ∅ (rd_fields d' !! lineage)) ⊆ dom (GetOk d lineage).1.
Proof.
  destruct (SetLabels_total labels d lineage) as (t & -> & Hsub).
  unfold Set_. destruct (rd_set_err d lineage); [done|].
  intros [= <-]. cbn [rd_fields]. by rewrite lookup_insert_eq.
Qed.

Lemma SetLabels_keys_declared_witness :
  ∃ d', SetLabels (Some {[ "a" := "2"; "goog-extra" := "9" ]}) declared_a "labels" = Ok d' ∧
        dom (default ∅ (rd_fields d' !! "labels")) ⊆ dom (GetOk declared_a "labels").1.
Proof.
  eexists. split; [vm_compute; reflexivity|].
  apply (SetLabels_keys_declared (Some {[ "a" := "2"; "goog-extra" := "9" ]})).
  vm_compute. reflexivity.
Defined.

(** C8 (amended): the label helpers never panic, and fail only when the
    host refuses a write.  Nil default labels act as the empty map, an
    absent declared map as the empty one, absent prior-state maps as empty
    ones, and nil remote labels give the empty projection.  Nil user labels
    make [SetLabelsDiff] return at once: nothing is planned, the defaults
    are not merged. *)
Theorem label_helpers_nil_inputs (cfg : Config) (dd dd' : ResourceDiff) (U : LabelSet)
    labels d lineage :
  (∀ msg, SetLabelsDiff cfg dd ≠ Panic msg) ∧
  (∀ msg, SetLabels labels d lineage ≠ Panic msg) ∧
  (rd_set_err d lineage = None → ∃ d', SetLabels labels d lineage = Ok d') ∧
  (diff_setnew_err dd "terraform_labels" = None →
   diff_setnew_err dd "effective_labels" = None →
   ∃ dd', SetLabelsDiff cfg dd = Ok dd') ∧
  SetLabelsDiff {| DefaultLabels := None |} dd
    = SetLabelsDiff {| DefaultLabels := Some ∅ |} dd ∧
  ((GetOk d lineage).1 = ∅ → SetLabels labels d lineage = Set_ d lineage ∅) ∧
  (diff_labels dd = Some U → diff_state dd = ∅ → diff_new dd = ∅ →
   SetLabelsDiff cfg dd = Ok dd' →
   Get dd' "terraform_labels" = U ∪ default ∅ (DefaultLabels cfg) ∧
   Get dd' "effective_labels" = U ∪ default ∅ (DefaultLabels cfg)) ∧
  SetLabels None d lineage = Set_ d lineage ∅ ∧
  (diff_labels dd = None → SetLabelsDiff cfg dd = Ok dd).
Proof.
  split_and!.
  - intros msg. unfold SetLabelsDiff, SetNew.
    destruct (diff_labels dd); [|done].
    destruct (diff_setnew_err dd "terraform_labels"); [done|].
    cbn [GetChange diff_setnew_err].
    by destruct (diff_setnew_err dd "effective_labels").
  - intros msg. destruct (SetLabels_total labels d lineage) as (t & -> & _).
    unfold Set_. by destruct (rd_set_err d lineage).
  - intros He. destruct (SetLabels_total labels d lineage) as (t & -> & _).
    unfold Set_. rewrite He. eauto.
  - intros E1 E2. destruct (diff_labels dd) as [U'|] eqn:HU.
    + by eapply SetLabelsDiff_accepted.
    + exists dd. unfold SetLabelsDiff. by rewrite HU.
  - done.
  - intros Hv. unfold SetLabels, GetOk in *. cbn [fst] in Hv. rewrite Hv.
    by rewrite bool_decide_eq_false_2 by (intros Hne; by apply Hne).
  - intros HU Hstate Hnew Hrun.
    destruct (SetLabelsDiff_Ok _ _ _ _ HU Hrun) as (_ & _ & ->).
    rewrite Get_planned_ne, !Get_planned by done.
    split; [done|]. unfold Get. rewrite Hstate, Hnew, !lookup_empty. cbn [default].
    set (T := U ∪ default ∅ (DefaultLabels cfg)).
    apply map_eq. intros k. rewrite prune_lookup, lookup_empty.
    rewrite (right_id_L ∅ (∪)). by destruct (T !! k).
  - unfold SetLabels. cbn [GetOk]. by destruct (bool_decide _).
  - intros HU. unfold SetLabelsDiff. by rewrite HU.
Qed.

Lemma label_helpers_nil_inputs_witness :
  SetLabelsDiff prod_config (with_diff_labels team_diff None)
    = Ok (with_diff_labels team_diff None) ∧
  (∃ d', SetLabels None declared_a "labels" = Ok d') ∧
  (∃ p, SetLabelsDiff prod_config team_diff = Ok p ∧
        Get p "effective_labels" = {[ "team" := "x" ]} ∪ {[ "env" := "prod" ]}).
Proof.
  split; [|split].
  - pose proof (label_helpers_nil_inputs prod_config (with_diff_labels team_diff None)
                  team_diff ∅ None declared_a "labels")
      as (_ & _ & _ & _ & _ & _ & _ & _ & Hnil).
    apply Hnil. reflexivity.
  - pose proof (label_helpers_nil_inputs prod_config team_diff team_diff ∅
                  None declared_a "labels") as (_ & _ & Hok & _).
    apply Hok. reflexivity.
  - eexists. split; [vm_compute; reflexivity|].
    refine (proj2 ((proj1 (proj2 (proj2 (proj2 (proj2 (proj2 (proj2
      (label_helpers_nil_inputs prod_config team_diff _ {[ "team" := "x" ]}
         None declared_a "labels"))))))))
      eq_refl eq_refl eq_refl _)).
    vm_compute. reflexivity.
Defined.

(** C8 (as stated) fails: nil inputs are not always treated as empty
    maps.  With nil user labels the defaults are not merged into
    terraform_labels, with empty user labels they are; with nil remote
    labels the projection is empty, with empty remote labels it maps each
    declared key to the empty string. *)
Lemma nil_is_not_empty :
  (∃ p1 p2,
      SetLabelsDiff prod_config (with_diff_labels team_diff None) = Ok p1 ∧
      SetLabelsDiff prod_config (with_diff_labels team_diff (Some ∅)) = Ok p2 ∧
      map_to_list (Get p1 "terraform_labels") = [] ∧
      map_to_list (Get p2 "terraform_labels") = [("env", "prod")]) ∧
  (∃ r1 r2,
      SetLabels None declared_a "labels" = Ok r1 ∧
      SetLabels (Some ∅) declared_a "labels" = Ok r2 ∧
      map_to_list (default ∅ (rd_fields r1 !! "labels")) = [] ∧
      map_to_list (default ∅ (rd_fields r2 !! "labels")) = [("a", "")]).
Proof.
  split; eexists; eexists;
    (split; [vm_compute; reflexivity|]);
    (split; [vm_compute; reflexivity|]);
    split; vm_compute; reflexivity.
Qed.
End label_projection.

(** ** The worker pool *)

Section worker_pool.
Context {T : Type}.
Implicit Types (queue inflight tasks : list T) (sched : nat → nat).

(** Whatever the number of workers and the schedule, every submitted task
    runs, and runs once. *)
Lemma pool_order_perm n maxWorkers sched step queue inflight :
  (1 ≤ maxWorkers)%nat →
  (length inflight ≤ maxWorkers)%nat →
  n = length inflight + length queue →
  Bucket.pool_order n maxWorkers sched step queue inflight ≡ₚ inflight ++ queue.
Proof.
  intros Hw. revert step queue inflight.
  induction n as [|n IH]; intros step queue inflight Hlen Hn.
  - symmetry in Hn. apply Nat.eq_add_0 in Hn as [Hi Hq].
    apply length_zero_iff_nil in Hi, Hq. by subst.
  - cbn [Bucket.pool_order].
    set (room := maxWorkers - length inflight).
    set (inflight' := inflight ++ take room queue).
    assert (length inflight' = length inflight + Nat.min room (length queue)) as Hlen'.
    { unfold inflight'. by rewrite length_app, length_take. }
    assert (0 < length inflight')%nat as Hpos.
    { rewrite Hlen'. destruct inflight; cbn in *; [|lia].
      destruct queue; cbn in *; lia. }
    destruct (inflight' !! (sched step mod length inflight')) as [t|] eqn:Hi.
    + rewrite (IH (S step) (drop room queue) (delete (sched step mod length inflight') inflight')).
      * rewrite app_comm_cons, <- (delete_Permutation inflight' _ t Hi).
        unfold inflight'. by rewrite <- (assoc_L (++)), take_drop.
      * rewrite length_delete by eauto. lia.
      * rewrite length_delete by eauto. rewrite length_drop. lia.
    + apply lookup_ge_None in Hi.
      pose proof (Nat.mod_upper_bound (sched step) (length inflight')). lia.
Qed.

Lemma StopWait_perm k sched step tasks :
  Bucket.StopWait (Bucket.New k) sched step tasks ≡ₚ tasks.
Proof.
  unfold Bucket.StopWait, Bucket.New.
  rewrite pool_order_perm; [done|lia|cbn; lia|done].
Qed.
End worker_pool.

(** ** Delete *)

Section delete.
Import Bucket.
Implicit Types (h : Host) (d : ResourceData) (r : Remote) (evs : list Event)
  (order : list Object).

Lemma Objects_List_served r :
  list_err r (clock r) = None →
  Objects_List r = (served r (objects r), inr (take (Nat.max 1 (max_results r)) (objects r))).
Proof. intros He. unfold Objects_List. by rewrite He. Qed.

Lemma page_nonempty (p : nat) (objs : list Object) :
  objs ≠ [] → ∃ o items, take (Nat.max 1 p) objs = o :: items.
Proof.
  intros Hne. destruct objs as [|o objs]; [done|].
  destruct (Nat.max 1 p) as [|k] eqn:Hk; [lia|]. cbn. eauto.
Qed.

(** C3: when the listing comes back non-empty and force_destroy is not
    set, Delete returns the "not empty" error straight away (outside any
    retry wrapper): the listing is its only remote call, so there is no
    object-delete call and no bucket-delete call. *)
Theorem Delete_without_force_destroy fuel h d r r' items :
  Objects_List r = (r', inr items) →
  items ≠ [] →
  force_destroy (planned d) = false →
  ∃ evs, resourceStorageBucketDelete (S fuel) h d r
           = (Some (Err not_empty_error), r', evs) ∧
         evs = [ObjectsList (name (planned d))] ∧
         object_deletes evs = [] ∧
         Forall (λ ev, is_BucketsDelete ev = false) evs.
Proof.
  intros Hlist Hne Hforce. cbn [resourceStorageBucketDelete].
  rewrite Hlist. destruct items as [|o items]; [done|]. rewrite Hforce.
  eexists. split; [done|]. split; [done|]. split; [done|].
  by repeat constructor.
Qed.

(** One task of the pool against a service that refuses the deletion:
    the error is logged, nothing is returned, the object stays. *)
Lemma delete_object_refused bucket o r evs :
  stuck r →
  ∃ msg, delete_object bucket o (r, evs)
         = (served r (objects r), evs ++ [ObjectsDelete bucket o; LogErr msg]).
Proof.
  intros (_ & Hrefuse & _). unfold delete_object, Objects_Delete.
  destruct (Hrefuse (clock r) o) as [e ->]. eauto.
Qed.

Lemma stuck_served r : stuck r → stuck (served r (objects r)).
Proof. by intros (? & ? & ?). Qed.

Lemma pool_stuck bucket order r evs :
  stuck r →
  Forall (λ ev, is_BucketsDelete ev = false) evs →
  ∃ r' evs', foldl (λ st object, delete_object bucket object st) (r, evs) order = (r', evs') ∧
             stuck r' ∧
             Forall (λ ev, is_BucketsDelete ev = false) evs'.
Proof.
  revert r evs. induction order as [|o order IH]; intros r evs Hstuck Hevs.
  - cbn. eauto.
  - cbn [foldl]. destruct (delete_object_refused bucket o r evs Hstuck) as [msg ->].
    apply IH; [by apply stuck_served|].
    apply Forall_app. split; [done|]. by repeat constructor.
Qed.

(** Against a service that refuses every object deletion, the forced
    delete never leaves its loop and never calls the bucket deletion. *)
Lemma Delete_stuck fuel h d r :
  stuck r →
  force_destroy (planned d) = true →
  ∃ r' evs, resourceStorageBucketDelete fuel h d r = (None, r', evs) ∧
            Forall (λ ev, is_BucketsDelete ev = false) evs.
Proof.
  intros Hstuck Hforce. revert r Hstuck.
  induction fuel as [|fuel IH]; intros r Hstuck.
  - cbn. eauto.
  - cbn [resourceStorageBucketDelete].
    destruct Hstuck as (Hlist & Hrefuse & Hne).
    rewrite Objects_List_served by done.
    destruct (page_nonempty (max_results r) (objects r) Hne) as (o & items & ->).
    rewrite Hforce.
    destruct (pool_stuck (name (planned d))
                (StopWait (New (NumCPU h - 1)) (schedule h) (clock (served r (objects r)))
                          (o :: items))
                (served r (objects r)) [])
      as (r1 & evs1 & -> & Hstuck1 & Hevs1); [done|done|].
    destruct (IH r1 Hstuck1) as (r2 & evs2 & -> & Hevs2).
    do 2 eexists. split; [done|].
    constructor; [done|]. by apply Forall_app.
Qed.

Lemma filter_none {A} (P : A → Prop) `{∀ x, Decision (P x)} (l : list A) :
  (∀ x, x ∈ l → ¬ P x) → filter P l = [].
Proof.
  induction l as [|x l IH]; intros Hall; [done|].
  rewrite filter_cons_False by (apply Hall; by left).
  apply IH. intros y Hy. apply Hall. by right.
Qed.

Lemma filter_all {A} (P : A → Prop) `{∀ x, Decision (P x)} (l : list A) :
  (∀ x, x ∈ l → P x) → filter P l = l.
Proof.
  induction l as [|x l IH]; intros Hall; [done|].
  rewrite filter_cons_True by (apply Hall; by left).
  f_equal. apply IH. intros y Hy. apply Hall. by right.
Qed.

Lemma NoDup_take_drop {A} (p : nat) (l : list A) :
  NoDup l → NoDup (take p l) ∧ NoDup (drop p l).
Proof.
  intros Hnd. rewrite <- (take_drop p l) in Hnd.
  by apply NoDup_app in Hnd as (? & _ & ?).
Qed.

(** Once a page of a duplicate-free listing has been deleted, what is
    left is the rest of the listing. *)
Lemma filter_page_deleted (p : nat) order (objs : list Object) :
  NoDup objs →
  order ≡ₚ take p objs →
  filter (λ o', o' ∉ order) objs = drop p objs.
Proof.
  intros Hnd Hperm.
  rewrite <- (take_drop p objs) in Hnd. apply NoDup_app in Hnd as (_ & Hdisj & _).
  rewrite <- (take_drop p objs) at 1. rewrite filter_app.
  rewrite filter_none, filter_all; [done| |].
  - intros x Hx Hin. rewrite Hperm in Hin. by apply (Hdisj x).
  - intros x Hx Hout. apply Hout. by rewrite Hperm.
Qed.

(** One task of the pool against a healthy service. *)
Lemma delete_object_served bucket o r evs :
  healthy r →
  o ∈ objects r →
  delete_object bucket o (r, evs)
    = (served r (filter (λ o', o' ≠ o) (objects r)), evs ++ [ObjectsDelete bucket o]).
Proof.
  intros (_ & Hdel) Hin. unfold delete_object, Objects_Delete.
  by rewrite Hdel, bool_decide_eq_true_2.
Qed.

Lemma healthy_served r objs : healthy r → healthy (served r objs).
Proof. by intros (? & ?). Qed.

(** The whole pool against a healthy service: one call per task, in the
    order the pool serves them, and the tasks' objects are gone. *)
Lemma pool_healthy bucket order r evs :
  healthy r →
  NoDup order →
  (∀ o, o ∈ order → o ∈ objects r) →
  ∃ r', foldl (λ st object, delete_object bucket object st) (r, evs) order
          = (r', evs ++ (ObjectsDelete bucket <$> order)) ∧
        healthy r' ∧
        max_results r' = max_results r ∧
        objects r' = filter (λ o', o' ∉ order) (objects r).
Proof.
  revert r evs. induction order as [|o order IH]; intros r evs Hh Hnd Hin.
  - exists r. cbn. rewrite (right_id_L [] (++)). split_and!; [done..|].
    symmetry. apply filter_all. intros x _. apply not_elem_of_nil.
  - apply NoDup_cons in Hnd as [Ho Hnd]. cbn [foldl].
    rewrite delete_object_served by (done || apply Hin; by left).
    destruct (IH (served r (filter (λ o', o' ≠ o) (objects r)))
                 (evs ++ [ObjectsDelete bucket o])) as (r' & -> & Hh' & Hmax & Hobjs).
    + by apply healthy_served.
    + done.
    + intros o' Ho'. cbn. apply list_elem_of_filter. split.
      * intros ->. done.
      * apply Hin. by right.
    + exists r'. rewrite fmap_cons, <- (assoc_L (++)). split_and!; [done..|].
      rewrite Hobjs. cbn [served objects]. rewrite list_filter_filter.
      apply list_filter_iff. intros x. rewrite elem_of_cons. split.
      * intros [Hx Hne] [->|Hx']; done.
      * intros Hx. split; intros Hx'; apply Hx; [by right|by left].
Qed.

Lemma retry_call_events {A} (call : Remote → Remote * (ApiError + A)) ev again n r r' reply evs :
  (∀ r, objects (call r).1 = objects r) →
  retry_call call ev again n r = (r', reply, evs) →
  evs ≠ [] ∧ Forall (λ ev', ev' = ev) evs ∧ objects r' = objects r.
Proof.
  intros Hcall. revert r r' reply evs.
  induction n as [|n IH]; intros r r' reply evs; cbn [retry_call];
    pose proof (Hcall r) as Hr; destruct (call r) as [r1 [err|a]]; cbn in Hr.
  - intros [= <- <- <-]. by repeat constructor.
  - intros [= <- <- <-]. by repeat constructor.
  - destruct (again err).
    + destruct (retry_call call ev again n r1) as [[r2 reply2] evs2] eqn:Hrec.
      intros [= <- <- <-]. apply IH in Hrec as (_ & Hall & Hobjs).
      split_and!; [done|by constructor|congruence].
    + intros [= <- <- <-]. by repeat constructor.
  - intros [= <- <- <-]. by repeat constructor.
Qed.

Lemma remove_bucket_events h bucket r :
  ∃ result r' bd, remove_bucket h bucket r = (result, r', bd) ∧
                  bd ≠ [] ∧
                  Forall (λ ev, is_BucketsDelete ev = true) bd ∧
                  objects r' = objects r.
Proof.
  unfold remove_bucket.
  destruct (retry_call _ _ _ _ r) as [[r' reply] bd] eqn:Hretry.
  apply retry_call_events in Hretry as (Hne & Hall & Hobjs).
  - exists (match reply with inl err => Err (Message err) | inr _ => Ok tt end), r', bd.
    split_and!; [by destruct reply|done| |done].
    eapply Forall_impl; [exact Hall|]. by intros ? ->.
  - intros r0. unfold Buckets_Delete. by cbn.
Qed.

Lemma object_deletes_calls bucket order :
  object_deletes (ObjectsDelete bucket <$> order) = order.
Proof. induction order as [|o order IH]; [done|]. cbn. by f_equal. Qed.

Lemma object_deletes_app evs evs' :
  object_deletes (evs ++ evs') = object_deletes evs ++ object_deletes evs'.
Proof. apply omap_app. Qed.

Lemma no_BucketsDelete_calls bucket order :
  Forall (λ ev, is_BucketsDelete ev = false) (ObjectsDelete bucket <$> order).
Proof. induction order; by constructor. Qed.

(** C2 (amended): when force_destroy is set and the service serves every
    listing and every object deletion, Delete returns (given fuel for one
    round per object version and one more), and its trace is the object
    deletions, one per (name, generation) pair of the bucket and each pair
    once, followed by the bucket deletion and nothing else; this for
    every number of CPUs, every schedule of the pool and every page size
    of the listing. *)
Theorem Delete_force_destroy_each_once fuel h d r :
  force_destroy (planned d) = true →
  healthy r →
  NoDup (objects r) →
  (length (objects r) < fuel)%nat →
  ∃ result r' evs bd,
    resourceStorageBucketDelete fuel h d r = (Some result, r', evs ++ bd) ∧
    object_deletes evs ≡ₚ objects r ∧
    length (object_deletes evs) = length (objects r) ∧
    Forall (λ ev, is_BucketsDelete ev = false) evs ∧
    bd ≠ [] ∧
    Forall (λ ev, is_BucketsDelete ev = true) bd ∧
    objects r' = [].
Proof.
  intros Hforce. revert r.
  induction fuel as [|fuel IH]; intros r Hh Hnd Hfuel; [lia|].
  cbn [resourceStorageBucketDelete].
  rewrite Objects_List_served by apply Hh.
  destruct (objects r) as [|o objs] eqn:Hobjs.
  - rewrite take_nil.
    destruct (remove_bucket_events h (name (planned d)) (served r []))
      as (result & r' & bd & -> & Hne & Hbd & Hr').
    exists result, r', [ObjectsList (name (planned d))], bd.
    split_and!; [done|done|done|by repeat constructor|done|done|done].
  - rewrite <- Hobjs in *.
    destruct (page_nonempty (max_results r) (objects r)) as (o' & items & Hpage);
      [by rewrite Hobjs|].
    rewrite Hpage, Hforce.
    set (order := StopWait _ _ _ _).
    assert (order ≡ₚ take (Nat.max 1 (max_results r)) (objects r)) as Hperm.
    { unfold order. by rewrite StopWait_perm, Hpage. }
    destruct (pool_healthy (name (planned d)) order (served r (objects r)) [])
      as (r1 & -> & Hh1 & Hmax1 & Hobjs1).
    + by apply healthy_served.
    + rewrite Hperm. exact (proj1 (NoDup_take_drop _ _ Hnd)).
    + intros x Hx. rewrite Hperm in Hx. cbn.
      exact (subseteq_take (Nat.max 1 (max_results r)) (objects r) x Hx).
    + cbn [served objects] in Hobjs1.
      rewrite (filter_page_deleted (Nat.max 1 (max_results r)) _ _ Hnd Hperm) in Hobjs1.
      destruct (IH r1) as (result & r' & evs' & bd & -> & Hdel & Hlen & Hevs' & Hne & Hbd & Hr').
      * done.
      * rewrite Hobjs1. exact (proj2 (NoDup_take_drop _ _ Hnd)).
      * rewrite Hobjs1, length_drop.
        assert (0 < length (objects r))%nat by (rewrite Hobjs; cbn; lia). lia.
      * assert (object_deletes
                  (ObjectsList (name (planned d)) ::
                     ([] ++ (ObjectsDelete (name (planned d)) <$> order)) ++ evs')
                = order ++ object_deletes evs') as Hod.
        { change (object_deletes
                    (([] ++ (ObjectsDelete (name (planned d)) <$> order)) ++ evs')
                  = order ++ object_deletes evs').
          by rewrite app_nil_l, object_deletes_app, object_deletes_calls. }
        assert (order ++ object_deletes evs' ≡ₚ objects r) as Hall.
        { rewrite Hperm, Hdel, Hobjs1. by rewrite take_drop. }
        exists result, r',
          (ObjectsList (name (planned d)) ::
             ([] ++ (ObjectsDelete (name (planned d)) <$> order)) ++ evs'), bd.
        split_and!; [|by rewrite Hod|by rewrite Hod, Hall| |done|done|done].
        -- f_equal. rewrite <- app_comm_cons. f_equal. by rewrite (assoc_L (++)).
        -- constructor; [done|]. apply Forall_app. split; [|done].
           apply no_BucketsDelete_calls.
Qed.
End delete.

(** ** Create and Update *)

Section create_update.
Import Bucket.
Implicit Types (h : Host) (d : ResourceData) (r : Remote).

Lemma GetOk_cons {A} (get : BucketConfig → list A) d x l :
  get (planned d) = x :: l → GetOk get d = (x :: l, true).
Proof. intros Hv. unfold GetOk. by rewrite Hv. Qed.

Lemma bind_never_Ok {A B} (m : outcome A) (f : A → outcome B) :
  (∀ a b, f a ≠ Ok b) → ∀ b, m ≫= f ≠ Ok b.
Proof. intros Hf b. destruct m as [a| |]; [apply Hf|done..]. Qed.

Lemma lifecycle_expands d sb :
  (∃ rules, expand_lifecycle_rules (lifecycle_rule (planned d)) [] = Ok rules) →
  ∃ sb', resourceGCSBucketLifecycleCreateOrUpdate d sb = Ok sb'.
Proof.
  intros [rules Hrules]. unfold resourceGCSBucketLifecycleCreateOrUpdate, GetOk.
  destruct (lifecycle_rule (planned d)); [eauto|]. rewrite Hrules. cbn. eauto.
Qed.

Lemma Create_request_website_blocks h d :
  (1 < length (website (planned d)))%nat →
  (∀ req, resourceStorageBucketCreate_request h d ≠ Ok req) ∧
  (is_Some (match getProject h d with Ok p => Some p | _ => None end) →
   (∃ rules, expand_lifecycle_rules (lifecycle_rule (planned d)) [] = Ok rules) →
   head (versioning (planned d)) ≠ Some None →
   resourceStorageBucketCreate_request h d = Err website_error).
Proof.
  intros Hlen.
  destruct (website (planned d)) as [|w1 [|w2 ws]] eqn:Hw; cbn in Hlen; try lia.
  unfold resourceStorageBucketCreate_request.
  rewrite (GetOk_cons website d _ _ Hw).
  rewrite bool_decide_eq_true_2 by (cbn; lia).
  cbn [mbind outcome_bind]. split.
  - intros req. apply bind_never_Ok. intros project ?.
    apply bind_never_Ok. intros sb1 ?. by apply bind_never_Ok.
  - intros Hproject Hlifecycle Hversioning.
    destruct (getProject h d) as [project| |]; [|by destruct Hproject..].
    cbn [mbind outcome_bind].
    match goal with
    | |- resourceGCSBucketLifecycleCreateOrUpdate d ?sb ≫= _ = _ =>
        destruct (lifecycle_expands d sb Hlifecycle) as [sb1 ->]
    end.
    cbn [mbind outcome_bind]. unfold GetOk.
    destruct (versioning (planned d)) as [|[v|] vs]; [done|done|].
    by destruct Hversioning.
Qed.

Lemma Update_request_website_blocks d :
  (1 < length (website (planned d)))%nat →
  HasChange website d = true →
  (∀ sb, resourceStorageBucketUpdate_request d ≠ Ok sb) ∧
  ((∃ rules, expand_lifecycle_rules (lifecycle_rule (planned d)) [] = Ok rules) →
   head (versioning (planned d)) ≠ Some None →
   resourceStorageBucketUpdate_request d = Err website_error).
Proof.
  intros Hlen Hchange.
  destruct (website (planned d)) as [|w1 [|w2 ws]] eqn:Hw; cbn in Hlen; try lia.
  unfold resourceStorageBucketUpdate_request.
  rewrite Hchange, (GetOk_cons website d _ _ Hw).
  rewrite bool_decide_eq_true_2 by (cbn; lia).
  cbn [mbind outcome_bind]. split.
  - intros sb. apply bind_never_Ok. intros sb1 ?. by apply bind_never_Ok.
  - intros Hlifecycle Hversioning.
    destruct (HasChange lifecycle_rule d);
      [destruct (lifecycle_expands d empty_bucket Hlifecycle) as [sb1 ->]|];
      cbn [mbind outcome_bind];
      (destruct (HasChange versioning d); [|done]);
      unfold GetOk;
      (destruct (versioning (planned d)) as [|[v|] vs]; [done|done|]);
      by destruct Hversioning.
Qed.

(** C9 (amended): with more than one website block, CREATE always, and
    UPDATE whenever the website field has changed, return without having
    made any remote call, and not with success; when project resolution,
    the lifecycle rules and the versioning block pass, what they return is
    the validation error "At most one website block is allowed".  No retry
    wrapper is involved. *)
Theorem website_blocks_rejected h d r :
  (1 < length (website (planned d)))%nat →
  (∃ res, resourceStorageBucketCreate h d r = (res, r, []) ∧
          (∀ d', res ≠ Ok d') ∧
          (is_Some (match getProject h d with Ok p => Some p | _ => None end) →
           (∃ rules, expand_lifecycle_rules (lifecycle_rule (planned d)) [] = Ok rules) →
           head (versioning (planned d)) ≠ Some None →
           res = Err website_error)) ∧
  (HasChange website d = true →
   ∃ res, resourceStorageBucketUpdate h d r = (res, r, []) ∧
          (∀ d', res ≠ Ok d') ∧
          ((∃ rules, expand_lifecycle_rules (lifecycle_rule (planned d)) [] = Ok rules) →
           head (versioning (planned d)) ≠ Some None →
           res = Err website_error)).
Proof.
  intros Hlen. split.
  - destruct (Create_request_website_blocks h d Hlen) as [Hno Herr].
    unfold resourceStorageBucketCreate.
    destruct (resourceStorageBucketCreate_request h d) as [req|e|msg].
    + by destruct (Hno req).
    + exists (Err e). split; [done|]. split; [done|].
      intros H1 H2 H3. by injection (Herr H1 H2 H3) as ->.
    + exists (Panic msg). split; [done|]. split; [done|].
      intros H1 H2 H3. by specialize (Herr H1 H2 H3).
  - intros Hchange.
    destruct (Update_request_website_blocks d Hlen Hchange) as [Hno Herr].
    unfold resourceStorageBucketUpdate.
    destruct (resourceStorageBucketUpdate_request d) as [sb|e|msg].
    + by destruct (Hno sb).
    + exists (Err e). split; [done|]. split; [done|].
      intros H1 H2. by injection (Herr H1 H2) as ->.
    + exists (Panic msg). split; [done|]. split; [done|].
      intros H1 H2. by specialize (Herr H1 H2).
Qed.
End create_update.

(** ** The sparse patch of Update *)

Section sparse_patch.
Import Bucket.
Implicit Types (d : ResourceData) (sb : Bucket).

Lemma bind_Ok_inv {A B} (m : outcome A) (f : A → outcome B) b :
  m ≫= f = Ok b → ∃ a, m = Ok a ∧ f a = Ok b.
Proof. destruct m as [a| |]; [eauto|done..]. Qed.

Lemma null_removed_labels_cons new_labels k v old nf :
  null_removed_labels new_labels ((k, v) :: old) nf
  = null_removed_labels new_labels old
      (match new_labels !! k with Some _ => nf | None => nf ++ ["Labels." +:+ k] end).
Proof. reflexivity. Qed.

Lemma null_removed_labels_keeps new_labels old nf x :
  x ∈ nf → x ∈ null_removed_labels new_labels old nf.
Proof.
  revert nf. induction old as [|[k v] old IH]; intros nf Hx; [done|].
  rewrite null_removed_labels_cons. apply IH.
  destruct (new_labels !! k); [done|]. apply elem_of_app. by left.
Qed.

(** The loop leaves a marker for every old key that the new labels lack. *)
Lemma null_removed_labels_marks new_labels old nf k :
  k ∈ old.*1 → new_labels !! k = None →
  ("Labels." +:+ k) ∈ null_removed_labels new_labels old nf.
Proof.
  revert nf. induction old as [|[k' v] old IH]; intros nf Hk Hnew.
  - by apply elem_of_nil in Hk.
  - rewrite null_removed_labels_cons.
    rewrite fmap_cons in Hk. cbn [fst] in Hk. apply elem_of_cons in Hk as [->|Hk].
    + apply null_removed_labels_keeps. rewrite Hnew.
      apply elem_of_app. right. by apply list_elem_of_singleton.
    + by apply IH.
Qed.

Lemma lifecycle_NullFields d sb sb' :
  resourceGCSBucketLifecycleCreateOrUpdate d sb = Ok sb' →
  NullFields sb' = NullFields sb ∧ Website sb' = Website sb.
Proof.
  unfold resourceGCSBucketLifecycleCreateOrUpdate.
  destruct (GetOk lifecycle_rule d) as [rules [|]].
  - intros (rs & _ & [= <-])%bind_Ok_inv. done.
  - by intros [= <-].
Qed.

(** The three steps of UPDATE between the website and the labels. *)
Lemma Update_cors_step d sb sb' :
  match GetOk cors d with
  | (v, true) => rules ← expandCors v; Ok (with_Cors sb rules)
  | (_, false) => Ok sb
  end = Ok sb' →
  NullFields sb' = NullFields sb ∧ Website sb' = Website sb ∧
  Lifecycle sb' = Lifecycle sb ∧
  (cors (planned d) = [] → Cors sb' = Cors sb).
Proof.
  unfold GetOk. destruct (cors (planned d)) as [|c cs].
  - by intros [= <-].
  - by intros (rules & _ & [= <-])%bind_Ok_inv.
Qed.

Lemma Update_logging_step d sb sb' :
  (if HasChange logging d
   then match GetOk logging d with
        | (v, true) => bl ← expandBucketLogging v; Ok (with_Logging sb (Some bl))
        | (_, false) => Ok (with_NullFields sb (NullFields sb ++ ["Logging"]))
        end
   else Ok sb) = Ok sb' →
  Website sb' = Website sb ∧ Cors sb' = Cors sb ∧ Lifecycle sb' = Lifecycle sb ∧
  (NullFields sb' = NullFields sb ∨ NullFields sb' = NullFields sb ++ ["Logging"]) ∧
  (HasChange logging d = true → logging (planned d) = [] →
   NullFields sb' = NullFields sb ++ ["Logging"]).
Proof.
  unfold GetOk. destruct (HasChange logging d).
  - destruct (logging (planned d)) as [|lg lgs].
    + intros [= <-]. split_and!; [done|done|done|by right|done].
    + intros (bl & _ & [= <-])%bind_Ok_inv. split_and!; [done|done|done|by left|done].
  - intros [= <-]. split_and!; [done|done|done|by left|done].
Qed.

Lemma Update_encryption_step d sb sb' :
  (if HasChange encryption d
   then match GetOk encryption d with
        | (v, true) => be ← expandBucketEncryption (Some v); Ok (with_Encryption sb be)
        | (_, false) => Ok (with_NullFields sb (NullFields sb ++ ["Encryption"]))
        end
   else Ok sb) = Ok sb' →
  Website sb' = Website sb ∧ Cors sb' = Cors sb ∧ Lifecycle sb' = Lifecycle sb ∧
  (NullFields sb' = NullFields sb ∨ NullFields sb' = NullFields sb ++ ["Encryption"]) ∧
  (HasChange encryption d = true → encryption (planned d) = [] →
   NullFields sb' = NullFields sb ++ ["Encryption"]).
Proof.
  unfold GetOk. destruct (HasChange encryption d).
  - destruct (encryption (planned d)) as [|enc encs].
    + intros [= <-]. split_and!; [done|done|done|by right|done].
    + intros (be & _ & [= <-])%bind_Ok_inv. split_and!; [done|done|done|by left|done].
  - intros [= <-]. split_and!; [done|done|done|by left|done].
Qed.

(** The last step of UPDATE, on the labels, keeps the markers it finds. *)
Lemma Update_labels_step_keeps d sb x :
  x ∈ NullFields sb →
  x ∈ NullFields
        (if HasChange labels d
         then
           let sb := with_Labels sb (expandLabels d) in
           let sb := if bool_decide (size (Labels sb) = 0)
                     then with_NullFields sb (NullFields sb ++ ["Labels"])
                     else sb in
           let old := labels (prior d) in
           with_NullFields sb
             (null_removed_labels (Labels sb) (map_to_list old) (NullFields sb))
         else sb).
Proof.
  intros Hx. cbv zeta.
  destruct (HasChange labels d); [|done].
  destruct (bool_decide (size (Labels (with_Labels sb (expandLabels d))) = 0));
    cbn [NullFields with_NullFields with_Labels];
    apply null_removed_labels_keeps; [|done].
  apply elem_of_app. by left.
Qed.

(** X14: what UPDATE does mark: a cleared logging or encryption block, an
    emptied label map, and each label key that was removed. *)
Lemma Update_request_null_markers d sb :
  resourceStorageBucketUpdate_request d = Ok sb →
  (HasChange logging d = true → logging (planned d) = [] → "Logging" ∈ NullFields sb) ∧
  (HasChange encryption d = true → encryption (planned d) = [] →
   "Encryption" ∈ NullFields sb) ∧
  (HasChange labels d = true → labels (planned d) = ∅ → "Labels" ∈ NullFields sb) ∧
  (∀ k, is_Some (labels (prior d) !! k) → labels (planned d) !! k = None →
        ("Labels." +:+ k) ∈ NullFields sb).
Proof.
  unfold resourceStorageBucketUpdate_request. cbv zeta.
  intros (sb1 & _ & H)%bind_Ok_inv.
  apply bind_Ok_inv in H as (sb2 & _ & H).
  apply bind_Ok_inv in H as (sb3 & _ & H).
  apply bind_Ok_inv in H as (sb4 & _ & H).
  apply bind_Ok_inv in H as (sb5 & Hlogging & H).
  apply bind_Ok_inv in H as (sb6 & Hencryption & H).
  injection H as <-.
  apply Update_logging_step in Hlogging as (_ & _ & _ & _ & Hlog).
  apply Update_encryption_step in Hencryption as (_ & _ & _ & Hkept & Henc).
  split_and!.
  - intros Hc Hl. apply Update_labels_step_keeps.
    destruct Hkept as [-> | ->]; rewrite (Hlog Hc Hl).
    + apply elem_of_app. right. by apply list_elem_of_singleton.
    + apply elem_of_app. left. apply elem_of_app. right.
      by apply list_elem_of_singleton.
  - intros Hc Hl. apply Update_labels_step_keeps. rewrite (Henc Hc Hl).
    apply elem_of_app. right. by apply list_elem_of_singleton.
  - intros Hc Hl. rewrite Hc. unfold expandLabels. rewrite Hl.
    cbn [Labels with_Labels].
    rewrite bool_decide_eq_true_2 by apply map_size_empty.
    cbn [NullFields with_NullFields with_Labels].
    apply null_removed_labels_keeps, elem_of_app. right.
    by apply list_elem_of_singleton.
  - intros k [v Hold] Hnew.
    assert (HasChange labels d = true) as ->.
    { apply bool_decide_eq_true_2. intros Heq. rewrite Heq in Hold. congruence. }
    cbn [NullFields with_NullFields].
    apply null_removed_labels_marks.
    + apply list_elem_of_fmap. exists (k, v). split; [done|].
      by apply elem_of_map_to_list.
    + by destruct (bool_decide (size (expandLabels d) = 0)).
Qed.

Lemma null_removed_labels_Forall (P : string → Prop) new_labels old nf :
  (∀ k, P ("Labels." +:+ k)) → Forall P nf →
  Forall P (null_removed_labels new_labels old nf).
Proof.
  intros HP. revert nf. induction old as [|[k v] old IH]; intros nf Hnf; [done|].
  rewrite null_removed_labels_cons. apply IH.
  destruct (new_labels !! k); [done|]. apply Forall_app. split; [done|].
  by repeat constructor.
Qed.

(** X16: what UPDATE never marks and leaves out: the markers of a patch are
    those of logging, encryption and labels only, so neither the CORS rules
    nor the website are ever marked for null-out; and when their lists are
    empty in the configuration, the patch does not carry them either. *)
Lemma Update_request_unmarked d sb :
  resourceStorageBucketUpdate_request d = Ok sb →
  ("Cors" ∉ NullFields sb) ∧
  ("Website" ∉ NullFields sb) ∧
  (cors (planned d) = [] → Cors sb = []) ∧
  (website (planned d) = [] → Website sb = None).
Proof.
  unfold resourceStorageBucketUpdate_request. cbv zeta.
  intros (sb1 & H1 & H)%bind_Ok_inv.
  apply bind_Ok_inv in H as (sb2 & H2 & H).
  apply bind_Ok_inv in H as (sb3 & H3 & H).
  apply bind_Ok_inv in H as (sb4 & H4 & H).
  apply bind_Ok_inv in H as (sb5 & H5 & H).
  apply bind_Ok_inv in H as (sb6 & H6 & H).
  injection H as <-.
  assert (NullFields sb1 = [] ∧ Website sb1 = None ∧ Cors sb1 = []) as (N1 & W1 & C1).
  { destruct (HasChange lifecycle_rule d).
    - unfold resourceGCSBucketLifecycleCreateOrUpdate in H1.
      destruct (GetOk lifecycle_rule d) as [rules [|]].
      + by apply bind_Ok_inv in H1 as (rs & _ & [= <-]).
      + by injection H1 as <-.
    - by injection H1 as <-. }
  assert (NullFields sb2 = [] ∧ Website sb2 = None ∧ Cors sb2 = []) as (N2 & W2 & C2).
  { destruct (HasChange versioning d), (HasChange requester_pays d);
      try (unfold GetOk in H2; destruct (versioning (planned d)) as [|[v|] vs];
           cbn in H2; try done);
      by injection H2 as <-. }
  assert (NullFields sb3 = [] ∧ Cors sb3 = [] ∧
          (website (planned d) = [] → Website sb3 = None)) as (N3 & C3 & W3).
  { destruct (HasChange website d); [|by injection H3 as <-].
    unfold GetOk in H3. destruct (website (planned d)) as [|[w|] ws].
    - by injection H3 as <-.
    - destruct (bool_decide _); [done|]. by injection H3 as <-.
    - destruct (bool_decide _); [done|]. by rewrite W2 in H3. }
  apply Update_cors_step in H4 as (N4 & W4 & _ & C4).
  apply Update_logging_step in H5 as (W5 & C5 & _ & N5 & _).
  apply Update_encryption_step in H6 as (W6 & C6 & _ & N6 & _).
  assert (Forall (λ x, x = "Logging" ∨ x = "Encryption" ∨ x = "Labels" ∨
                       ∃ k, x = "Labels." +:+ k) (NullFields sb6)) as N6'.
  { destruct N6 as [-> | ->], N5 as [-> | ->]; rewrite N4, N3; cbn [app];
      repeat first [ apply Forall_nil_2 | apply Forall_cons_2 ]; auto. }
  match goal with
  | |- (_ ∉ NullFields ?patch) ∧ _ =>
      assert (Forall (λ x, x = "Logging" ∨ x = "Encryption" ∨ x = "Labels" ∨
                           ∃ k, x = "Labels." +:+ k) (NullFields patch)) as Hall
  end.
  { destruct (HasChange labels d); [destruct (bool_decide _)|];
      cbn [NullFields with_NullFields with_Labels];
      repeat first [ done
                   | apply null_removed_labels_Forall; [by eauto 6|]
                   | apply Forall_app; split
                   | by repeat constructor; eauto 6 ]. }
  split_and!.
  - intros Hin. eapply Forall_forall in Hall; [|exact Hin].
    by destruct Hall as [?|[?|[?|[k ?]]]].
  - intros Hin. eapply Forall_forall in Hall; [|exact Hin].
    by destruct Hall as [?|[?|[?|[k ?]]]].
  - intros Hc.
    assert (Cors sb6 = []) as C6' by (by rewrite C6, C5, C4, C3).
    by destruct (HasChange labels d); [destruct (bool_decide _)|].
  - intros Hw.
    assert (Website sb6 = None) as W6' by (rewrite W6, W5, W4; by apply W3).
    by destruct (HasChange labels d); [destruct (bool_decide _)|].
Qed.

(** X17: whenever UPDATE reaches the branch for an emptied website block, it
    panics: no step before it sets [sb.Website]. *)
Lemma Update_request_emptied_website d :
  HasChange website d = true →
  website (planned d) = [None] →
  (∀ sb, resourceStorageBucketUpdate_request d ≠ Ok sb) ∧
  ((∃ rules, expand_lifecycle_rules (lifecycle_rule (planned d)) [] = Ok rules) →
   head (versioning (planned d)) ≠ Some None →
   resourceStorageBucketUpdate_request d = Panic nil_dereference).
Proof.
  intros Hchange Hw. unfold resourceStorageBucketUpdate_request. cbv zeta.
  rewrite Hchange, (GetOk_cons website d _ _ Hw).
  rewrite bool_decide_eq_false_2 by (cbn; lia).
  split.
  - intros sb (sb1 & H1 & H)%bind_Ok_inv.
    apply bind_Ok_inv in H as (sb2 & H2 & H).
    apply bind_Ok_inv in H as (sb3 & H3 & _).
    assert (Website sb1 = None) as W1.
    { destruct (HasChange lifecycle_rule d); [|by injection H1 as <-].
      by apply lifecycle_NullFields in H1 as [_ ->]. }
    assert (Website sb2 = None) as W2.
    { destruct (HasChange versioning d), (HasChange requester_pays d);
        try (unfold GetOk in H2; destruct (versioning (planned d)) as [|[v|] vs];
             cbn in H2; try done);
        by injection H2 as <-. }
    by rewrite W2 in H3.
  - intros Hlifecycle Hversioning.
    assert (∃ sb1, (if HasChange lifecycle_rule d
                    then resourceGCSBucketLifecycleCreateOrUpdate d empty_bucket
                    else Ok empty_bucket) = Ok sb1 ∧ Website sb1 = None)
      as (sb1 & -> & W1).
    { destruct (HasChange lifecycle_rule d); [|by eexists].
      destruct (lifecycle_expands d empty_bucket Hlifecycle) as [sb1 E].
      exists sb1. split; [done|]. by apply lifecycle_NullFields in E as [_ ->]. }
    cbn [mbind outcome_bind].
    destruct (HasChange versioning d), (HasChange requester_pays d);
      try (unfold GetOk; destruct (versioning (planned d)) as [|[v|] vs];
           [| |by destruct Hversioning]);
      cbn; by rewrite W1.
Qed.
End sparse_patch.

(** ** The properties at sample inputs *)

Section samples.
Import Bucket BucketSamples.

Lemma Delete_without_force_destroy_witness :
  ∃ evs, resourceStorageBucketDelete 1 (host 4 id) (resource plain plain)
           (service three_versions 1000 serves_all)
         = (Some (Err not_empty_error),
            served (service three_versions 1000 serves_all) three_versions, evs) ∧
         evs = [ObjectsList "b"] ∧
         object_deletes evs = [] ∧
         Forall (λ ev, is_BucketsDelete ev = false) evs.
Proof.
  apply (Delete_without_force_destroy 0 (host 4 id) (resource plain plain)
           (service three_versions 1000 serves_all) _ three_versions);
    [reflexivity|done|reflexivity].
Defined.

Lemma Delete_force_destroy_each_once_witness :
  ∃ result r' evs bd,
    resourceStorageBucketDelete 4 (host 4 (λ n, n * 7 + 3)) (resource forced forced)
      (service three_versions 2 serves_all) = (Some result, r', evs ++ bd) ∧
    object_deletes evs ≡ₚ three_versions ∧
    length (object_deletes evs) = 3 ∧
    Forall (λ ev, is_BucketsDelete ev = false) evs ∧
    bd ≠ [] ∧
    Forall (λ ev, is_BucketsDelete ev = true) bd ∧
    objects r' = [].
Proof.
  apply (Delete_force_destroy_each_once 4 (host 4 (λ n, n * 7 + 3)) (resource forced forced)
           (service three_versions 2 serves_all)).
  - reflexivity.
  - split; reflexivity.
  - compute_done.
  - vm_compute. lia.
Defined.

(** C2 (as stated) fails: a bucket with one object version whose deletion
    the service refuses at first gets two object-delete calls for that
    one pair before the bucket is deleted. *)
Lemma Delete_repeats_refused_deletion :
  ∃ r' evs,
    resourceStorageBucketDelete 3 (host 4 id) (resource forced forced)
      (service [obj "a" 1] 1000 refuses_at_first) = (Some (Ok tt), r', evs) ∧
    object_deletes evs = [obj "a" 1; obj "a" 1] ∧
    last evs = Some (BucketsDelete "b").
Proof. do 2 eexists. split; [vm_compute; reflexivity|]. split; reflexivity. Qed.

(** C7: the code at the failing input.  One object version whose
    deletion the service always refuses: however long the forced delete
    runs, it has not returned, and it has made no bucket-delete call that
    could report the leftover object. *)
Theorem Delete_refused_object_never_surfaces (fuel : nat) :
  ∃ r' evs,
    resourceStorageBucketDelete fuel (host 4 id) (resource forced forced)
      (service [obj "a" 1] 1000 refuses_all) = (None, r', evs) ∧
    Forall (λ ev, is_BucketsDelete ev = false) evs.
Proof.
  apply Delete_stuck; [|reflexivity].
  split; [done|]. split; [|done]. intros n o. by eexists.
Qed.

(** C4: the code at the failing input.  CORS rules, website and logging
    all go from one block to none: the patch carries the null marker for
    logging only; CORS and website are left out of it and have no marker. *)
Theorem Update_cleared_cors_and_website_unmarked :
  ∃ sb d' r',
    resourceStorageBucketUpdate (host 4 id) all_cleared (service [] 1000 serves_all)
      = (Ok d', r', [BucketsPatch "b" sb]) ∧
    Cors sb = [] ∧ Website sb = None ∧ NullFields sb = ["Logging"].
Proof. do 3 eexists. split; [vm_compute; reflexivity|]. by split_and!. Qed.

(** A removed label does get its marker. *)
Example Update_removed_label_marked :
  ∃ sb d' r',
    resourceStorageBucketUpdate (host 4 id) websites_kept_label_removed
      (service [] 1000 serves_all) = (Ok d', r', [BucketsPatch "b" sb]) ∧
    NullFields sb = ["Labels.b"].
Proof. do 3 eexists. split; vm_compute; reflexivity. Qed.

(** C10: the code at the failing input.  A website block with no
    attribute added to a bucket that had no website: the host hands the
    block over as nil, and UPDATE panics on the nil [sb.Website] before any
    call. *)
Theorem Update_emptied_website_panics :
  resourceStorageBucketUpdate (host 4 id) empty_website_added (service [] 1000 serves_all)
    = (Panic nil_dereference, service [] 1000 serves_all, []).
Proof. vm_compute. reflexivity. Qed.

Lemma website_blocks_rejected_witness :
  resourceStorageBucketCreate (host 4 id) website_added (service [] 1000 serves_all)
    = (Err website_error, service [] 1000 serves_all, []) ∧
  resourceStorageBucketUpdate (host 4 id) website_added (service [] 1000 serves_all)
    = (Err website_error, service [] 1000 serves_all, []).
Proof.
  destruct (website_blocks_rejected (host 4 id) website_added (service [] 1000 serves_all))
    as [(res1 & -> & _ & Hres1) Hupdate]; [vm_compute; lia|].
  destruct Hupdate as (res2 & -> & _ & Hres2); [vm_compute; reflexivity|].
  rewrite Hres1, Hres2; [done|by eexists|done|by eexists|by eexists|done].
Defined.

(** C9 (as stated) fails for UPDATE: with two website blocks that the
    prior state already holds, the website field has not changed, no
    validation takes place and the patch call is made. *)
Lemma Update_unchanged_website_blocks_patched :
  (1 < length (website (planned websites_kept_label_removed)))%nat ∧
  ∃ sb d' r',
    resourceStorageBucketUpdate (host 4 id) websites_kept_label_removed
      (service [] 1000 serves_all) = (Ok d', r', [BucketsPatch "b" sb]).
Proof. split; [vm_compute; lia|]. do 3 eexists. vm_compute. reflexivity. Qed.
End samples.

(** ** More on the label helpers *)

Section label_extras.
Import Labels.

(** X1: the loops of [SetLabelsDiff] over the new and the old terraform_labels
    give the same effective labels in whatever order Go visits the two
    maps. *)
Theorem effective_labels_order_independent
    (n o eff : LabelSet) (visit_n visit_o : list (string * string)) :
  visit_n ≡ₚ map_to_list n →
  visit_o ≡ₚ map_to_list o →
  prune_entries n visit_o (overlay_entries visit_n eff) = prune o n (overlay n eff).
Proof.
  intros Hn Ho. rewrite (overlay_entries_perm _ _ _ Hn), overlay_union.
  apply map_eq. intros k. rewrite prune_entries_lookup, prune_lookup.
  destruct (n !! k); [done|].
  assert (k ∈ visit_o.*1 ↔ is_Some (o !! k)) as Hk.
  { rewrite Ho. split.
    - intros [[k' v] [-> Hin]]%list_elem_of_fmap.
      apply elem_of_map_to_list in Hin. by eexists.
    - intros [v Hv]. apply list_elem_of_fmap. exists (k, v). split; [done|].
      by apply elem_of_map_to_list. }
  destruct (decide (k ∈ visit_o.*1)) as [Hin|Hout].
  - apply Hk in Hin as [v ->]. done.
  - destruct (o !! k) as [v|] eqn:Hv; [|done].
    destruct Hout. apply Hk. by eexists.
Qed.

Lemma effective_labels_order_independent_witness :
  prune_entries {[ "a" := "1"; "b" := "2" ]} [("a", "0"); ("c", "3")]
    (overlay_entries [("b", "2"); ("a", "1")] {[ "c" := "3" ]})
  = prune {[ "a" := "0"; "c" := "3" ]} {[ "a" := "1"; "b" := "2" ]}
      (overlay {[ "a" := "1"; "b" := "2" ]} {[ "c" := "3" ]}).
Proof.
  apply effective_labels_order_independent; vm_compute; apply Permutation_swap.
Defined.

(** X2: for non-nil remote labels, the map [SetLabels] writes has exactly the
    declared keys: each with the remote value, or with the empty string
    when the remote labels lack the key. *)
Theorem SetLabels_declared_values (L : LabelSet) (d d' : ResourceData) (lineage k : string) :
  SetLabels (Some L) d lineage = Ok d' →
  default ∅ (rd_fields d' !! lineage) !! k =
    match (GetOk d lineage).1 !! k with
    | Some _ => Some (default "" (L !! k))
    | None => None
    end.
Proof.
  unfold SetLabels, Set_. cbn [GetOk fst].
  set (v := default ∅ (rd_fields d !! lineage)).
  destruct (bool_decide (v ≠ ∅)) eqn:Hv;
    (destruct (rd_set_err d lineage); [done|]);
    intros [= <-]; cbn [rd_fields]; rewrite lookup_insert_eq; cbn [default]; unfold id.
  - rewrite project_entries_lookup, lookup_empty.
    destruct (v !! k) as [w|] eqn:Hk.
    + rewrite decide_True; [done|].
      apply list_elem_of_fmap. exists (k, w). split; [done|].
      by apply elem_of_map_to_list.
    + rewrite decide_False; [done|].
      intros [[k' w] [-> Hin]]%list_elem_of_fmap.
      apply elem_of_map_to_list in Hin. cbn in Hk. congruence.
  - apply bool_decide_eq_false in Hv. apply dec_stable in Hv. rewrite Hv.
    by rewrite !lookup_empty.
Qed.

Lemma SetLabels_declared_values_witness :
  ∃ d', SetLabels (Some {[ "goog-extra" := "9" ]}) Samples.declared_a "labels" = Ok d' ∧
        default ∅ (rd_fields d' !! "labels") !! "a" = Some "".
Proof.
  eexists. split; [vm_compute; reflexivity|].
  rewrite (SetLabels_declared_values {[ "goog-extra" := "9" ]} Samples.declared_a _ "labels" "a");
    vm_compute; reflexivity.
Defined.
End label_extras.

(** ** Labels inside a metadata block *)

Section metadata_labels.
Import Labels MetadataLabels.
Implicit Types (cfg : Config) (d : MetadataLabels.ResourceDiff) (U : LabelSet).

Lemma Get_0_labels d key U :
  Get_0 (metadata d) key = Some U →
  ∃ b rest, metadata d = Some b :: rest ∧ b !! key = Some (VLabels U).
Proof.
  unfold Get_0. destruct (metadata d) as [|[b|] rest]; [done| |done].
  destruct (b !! key) as [[m|s]|] eqn:Hb; [|done..].
  intros [= ->]. eauto.
Qed.

(** What a successful run with a labels map in the first block plans. *)
Lemma SetMetadataLabelsDiff_Ok cfg d U b rest :
  metadata d = Some b :: rest →
  b !! "labels" = Some (VLabels U) →
  setnew_err d "metadata" = None →
  SetMetadataLabelsDiff cfg d =
    Ok {| metadata_state := metadata_state d;
          metadata :=
            [Some (<["effective_labels" :=
                       VLabels (prune (default ∅ (Get_0 (metadata_state d) "terraform_labels"))
                                  (U ∪ default ∅ (DefaultLabels cfg))
                                  ((U ∪ default ∅ (DefaultLabels cfg))
                                   ∪ default ∅ (Get_0 (metadata d) "effective_labels")))]>
                     (<["terraform_labels" := VLabels (U ∪ default ∅ (DefaultLabels cfg))]> b))];
          setnew_err := setnew_err d |}.
Proof.
  intros Hm Hb He. unfold SetMetadataLabelsDiff, MetadataLabels.SetNew.
  rewrite Hm. cbn [Get_0]. rewrite Hb, He. cbn [setnew_err metadata metadata_state Get_0].
  rewrite He. rewrite lookup_insert_eq, lookup_insert_ne by done.
  cbn [default]. by rewrite !overlay_union, (right_id_L ∅ (∪)).
Qed.

Lemma SetMetadataLabelsDiff_accepts cfg d d' U :
  Get_0 (metadata d) "labels" = Some U →
  SetMetadataLabelsDiff cfg d = Ok d' →
  setnew_err d "metadata" = None.
Proof.
  intros (b & rest & Hm & Hb)%Get_0_labels.
  unfold SetMetadataLabelsDiff, MetadataLabels.SetNew.
  rewrite Hm. cbn [Get_0]. rewrite Hb.
  by destruct (setnew_err d "metadata").
Qed.

Lemma top_level_effective d :
  Get (top_level d) "effective_labels" = default ∅ (Get_0 (metadata d) "effective_labels").
Proof.
  unfold Get, top_level. cbn [diff_new diff_state]. rewrite lookup_empty.
  by rewrite lookup_insert_ne, lookup_singleton_eq.
Qed.

Lemma top_level_terraform d :
  default ∅ (diff_state (top_level d) !! "terraform_labels")
  = default ∅ (Get_0 (metadata_state d) "terraform_labels").
Proof. unfold top_level. cbn [diff_state]. by rewrite lookup_insert_eq. Qed.

(** X3: [SetMetadataLabelsDiff] plans for the block's maps what [SetLabelsDiff]
    plans for the top-level fields of a resource with the same labels and
    the same prior state. *)
Theorem SetMetadataLabelsDiff_as_top_level cfg d U (p : Labels.ResourceDiff) :
  Get_0 (metadata d) "labels" = Some U →
  SetLabelsDiff cfg (top_level d) = Ok p →
  ∃ d', SetMetadataLabelsDiff cfg d = Ok d' ∧
        Get_0 (metadata d') "terraform_labels" = Some (Get p "terraform_labels") ∧
        Get_0 (metadata d') "effective_labels" = Some (Get p "effective_labels").
Proof.
  intros HU Hrun.
  destruct (Get_0_labels d "labels" U HU) as (b & rest & Hm & Hb).
  destruct (SetLabelsDiff_Ok cfg (top_level d) p U HU Hrun) as (He & _ & ->).
  cbn [top_level diff_setnew_err] in He.
  rewrite (SetMetadataLabelsDiff_Ok cfg d U b rest Hm Hb He).
  eexists. split; [done|].
  cbn [metadata Get_0].
  rewrite lookup_insert_ne, !lookup_insert_eq by done.
  rewrite (Get_planned_ne (top_level d) "terraform_labels") by done.
  rewrite !(Get_planned (top_level d)).
  by rewrite top_level_effective, top_level_terraform.
Qed.

Lemma SetMetadataLabelsDiff_as_top_level_witness :
  ∃ p d',
    SetLabelsDiff Samples.prod_config (top_level MetadataSamples.web_diff) = Ok p ∧
    SetMetadataLabelsDiff Samples.prod_config MetadataSamples.web_diff = Ok d' ∧
    Get_0 (metadata d') "effective_labels" = Some (Get p "effective_labels").
Proof.
  destruct (SetLabelsDiff Samples.prod_config (top_level MetadataSamples.web_diff))
    as [p|e|msg] eqn:Hp; [|by vm_compute in Hp..].
  destruct (SetMetadataLabelsDiff_as_top_level Samples.prod_config
              MetadataSamples.web_diff {[ "team" := "x" ]} p)
    as (d' & Hrun & _ & Heff); [vm_compute; reflexivity|exact Hp|].
  by exists p, d'.
Defined.

(** X4: a run that plans something replaces the metadata list by its first
    block alone, in which only the two computed label maps are written: the
    other attributes of the block stay, the prior state is not touched. *)
Theorem SetMetadataLabelsDiff_block cfg d d' U :
  Get_0 (metadata d) "labels" = Some U →
  SetMetadataLabelsDiff cfg d = Ok d' →
  ∃ b b', head (metadata d) = Some (Some b) ∧
          metadata d' = [Some b'] ∧
          metadata_state d' = metadata_state d ∧
          ∀ key, key ≠ "terraform_labels" → key ≠ "effective_labels" →
                 b' !! key = b !! key.
Proof.
  intros HU Hrun. pose proof (SetMetadataLabelsDiff_accepts cfg d d' U HU Hrun) as He.
  destruct (Get_0_labels d "labels" U HU) as (b & rest & Hm & Hb).
  rewrite (SetMetadataLabelsDiff_Ok cfg d U b rest Hm Hb He) in Hrun.
  injection Hrun as <-. exists b. eexists. rewrite Hm.
  split_and!; [done|done|done|].
  intros key H1 H2. by rewrite !lookup_insert_ne.
Qed.

Lemma SetMetadataLabelsDiff_block_witness :
  ∃ d' b',
    SetMetadataLabelsDiff Samples.prod_config MetadataSamples.web_diff_two = Ok d' ∧
    metadata d' = [Some b'] ∧ b' !! "name" = Some (VOther "web").
Proof.
  destruct (SetMetadataLabelsDiff Samples.prod_config MetadataSamples.web_diff_two)
    as [d'|e|msg] eqn:Hrun; [|by vm_compute in Hrun..].
  destruct (SetMetadataLabelsDiff_block Samples.prod_config
              MetadataSamples.web_diff_two d' {[ "team" := "x" ]})
    as (b & b' & Hb & Hm & _ & Hkeep); [vm_compute; reflexivity|exact Hrun|].
  exists d', b'. split; [done|]. split; [done|].
  rewrite Hkeep by done. injection Hb as <-. by vm_compute.
Defined.

(** X5: reconciling once more after the plan has been persisted plans the same
    metadata list again. *)
Theorem SetMetadataLabelsDiff_idempotent cfg d d1 :
  SetMetadataLabelsDiff cfg d = Ok d1 →
  ∃ d2, SetMetadataLabelsDiff cfg (MetadataLabels.commit d1) = Ok d2 ∧
        metadata d2 = metadata d1.
Proof.
  intros Hrun. destruct (Get_0 (metadata d) "labels") as [U|] eqn:HU.
  - pose proof (SetMetadataLabelsDiff_accepts cfg d d1 U HU Hrun) as He.
    destruct (Get_0_labels d "labels" U HU) as (b & rest & Hm & Hb).
    rewrite (SetMetadataLabelsDiff_Ok cfg d U b rest Hm Hb He) in Hrun.
    injection Hrun as <-.
    set (T := U ∪ default ∅ (DefaultLabels cfg)).
    set (E := prune _ T _).
    set (b1 := <["effective_labels" := VLabels E]> (<["terraform_labels" := VLabels T]> b)).
    eexists. split.
    + apply (SetMetadataLabelsDiff_Ok cfg _ U b1 []); [done| |done].
      unfold b1. by rewrite !lookup_insert_ne.
    + cbn [metadata MetadataLabels.commit metadata_state Get_0].
      assert (b1 !! "terraform_labels" = Some (VLabels T)) as Ht.
      { unfold b1. by rewrite lookup_insert_ne, lookup_insert_eq. }
      assert (b1 !! "effective_labels" = Some (VLabels E)) as Hef.
      { unfold b1. by rewrite lookup_insert_eq. }
      rewrite Ht, Hef.
      change (default ∅ (Some T)) with T. change (default ∅ (Some E)) with E. fold T.
      rewrite (prune_overlay_fixed T E).
      * by rewrite (insert_id b1 "terraform_labels"), (insert_id b1 "effective_labels").
      * intros k v. apply prune_keeps_new.
  - assert (d1 = d) as ->.
    { unfold SetMetadataLabelsDiff in Hrun. rewrite HU in Hrun.
      by destruct (metadata d) as [|[b|] rest]; injection Hrun as <-. }
    exists (MetadataLabels.commit d). split; [|done].
    unfold SetMetadataLabelsDiff. cbn [MetadataLabels.commit metadata]. rewrite HU.
    by destruct (metadata d) as [|[b|] rest].
Qed.

Lemma SetMetadataLabelsDiff_idempotent_witness :
  ∃ d1 d2,
    SetMetadataLabelsDiff Samples.prod_config MetadataSamples.web_diff = Ok d1 ∧
    SetMetadataLabelsDiff Samples.prod_config (MetadataLabels.commit d1) = Ok d2 ∧
    metadata d2 = metadata d1.
Proof.
  destruct (SetMetadataLabelsDiff Samples.prod_config MetadataSamples.web_diff)
    as [d1|e|msg] eqn:Hrun; [|by vm_compute in Hrun..].
  destruct (SetMetadataLabelsDiff_idempotent Samples.prod_config
              MetadataSamples.web_diff d1 Hrun) as (d2 & Hrun2 & Hm).
  by exists d1, d2.
Defined.
End metadata_labels.



(** ** Lifecycle rules *)

Section lifecycle.
Import Bucket BucketRead.
Implicit Types (d : ResourceData) (sb : Bucket).

Lemma expand_lifecycle_rule_ok rule :
  one_action_one_condition rule → ∃ r, expand_lifecycle_rule rule = Ok r.
Proof.
  intros [Ha Hc]. unfold expand_lifecycle_rule.
  destruct (action rule) as [[|a [|a' actions]]|]; try (by specialize (Ha _ eq_refl));
    destruct (condition rule) as [[|c [|c' conditions]]|];
    try (by specialize (Hc _ eq_refl)); cbn; eauto.
Qed.

Lemma expand_lifecycle_rule_not_ok rule :
  ¬ one_action_one_condition rule →
  expand_lifecycle_rule rule = Err "Exactly one action is required" ∨
  expand_lifecycle_rule rule = Err "Exactly one condition is required".
Proof.
  intros Hbad. unfold expand_lifecycle_rule.
  destruct (action rule) as [[|a [|a' actions]]|] eqn:Ha; try (by left);
    destruct (condition rule) as [[|c [|c' conditions]]|] eqn:Hc; try (by right);
    destruct Hbad; (split; [intros ? Hx|intros ? Hx]);
    rewrite ?Ha, ?Hc in Hx; by try injection Hx as <-.
Qed.

Lemma expand_lifecycle_rules_acc rules acc :
  Forall one_action_one_condition rules →
  ∃ rs, expand_lifecycle_rules rules acc = Ok (acc ++ rs) ∧
        Forall2 (λ rule r, expand_lifecycle_rule rule = Ok r) rules rs.
Proof.
  revert acc. induction rules as [|rule rules IH]; intros acc Hall.
  - exists []. by rewrite (right_id_L [] (++)).
  - apply Forall_cons in Hall as [Hrule Hall].
    destruct (expand_lifecycle_rule_ok rule Hrule) as [r Hr].
    destruct (IH (acc ++ [r]) Hall) as (rs & Hrs & Hall2).
    exists (r :: rs). cbn [expand_lifecycle_rules]. rewrite Hr. cbn [mbind outcome_bind].
    rewrite Hrs, <- (assoc_L (++)). by split; [|constructor].
Qed.

Lemma expand_lifecycle_rules_bad rules acc :
  Exists (λ rule, ¬ one_action_one_condition rule) rules →
  expand_lifecycle_rules rules acc = Err "Exactly one action is required" ∨
  expand_lifecycle_rules rules acc = Err "Exactly one condition is required".
Proof.
  revert acc. induction rules as [|rule rules IH]; intros acc Hex.
  - by apply Exists_nil in Hex.
  - cbn [expand_lifecycle_rules].
    destruct (expand_lifecycle_rule rule) as [r|e|msg] eqn:Hr; cbn [mbind outcome_bind].
    + apply Exists_cons in Hex as [Hbad|Hex]; [|by apply IH].
      destruct (expand_lifecycle_rule_not_ok rule Hbad); congruence.
    + unfold expand_lifecycle_rule in Hr.
      destruct (action rule) as [[|a [|a' actions]]|];
        destruct (condition rule) as [[|c [|c' conditions]]|];
        cbn in Hr; try done; injection Hr as <-; auto.
    + unfold expand_lifecycle_rule in Hr.
      destruct (action rule) as [[|a [|a' actions]]|];
        destruct (condition rule) as [[|c [|c' conditions]]|];
        by cbn in Hr.
Qed.

(** X6: the lifecycle rules are sent when each has one action and one
    condition: as many API rules as configured, in the configured order,
    each the expansion of its own block; with no rule configured, an empty
    rule list is force-sent.  One rule with another number of actions or
    conditions makes the whole call fail with a validation error, never
    with a panic. *)
Theorem lifecycle_rules_validated d sb :
  (Forall one_action_one_condition (lifecycle_rule (planned d)) →
   ∃ rs, resourceGCSBucketLifecycleCreateOrUpdate d sb
         = Ok (with_Lifecycle sb
                 (Some {| Rule := rs;
                          lifecycle_ForceSendFields :=
                            match rs with [] => ["Rule"] | _ => [] end |})) ∧
         Forall2 (λ rule r, expand_lifecycle_rule rule = Ok r)
                 (lifecycle_rule (planned d)) rs) ∧
  (Exists (λ rule, ¬ one_action_one_condition rule) (lifecycle_rule (planned d)) →
   resourceGCSBucketLifecycleCreateOrUpdate d sb = Err "Exactly one action is required" ∨
   resourceGCSBucketLifecycleCreateOrUpdate d sb = Err "Exactly one condition is required").
Proof.
  unfold resourceGCSBucketLifecycleCreateOrUpdate, GetOk. split.
  - intros Hall. destruct (lifecycle_rule (planned d)) as [|rule rules] eqn:Hl.
    + exists []. by split.
    + destruct (expand_lifecycle_rules_acc (rule :: rules) [] Hall) as (rs & -> & Hall2).
      exists rs. cbn [mbind outcome_bind app]. split; [|done].
      by inversion Hall2.
  - intros Hex. destruct (lifecycle_rule (planned d)) as [|rule rules] eqn:Hl.
    + by apply Exists_nil in Hex.
    + destruct (expand_lifecycle_rules_bad (rule :: rules) [] Hex) as [->| ->]; auto.
Qed.
End lifecycle.

Section lifecycle_samples.
Import Bucket BucketRead ReadSamples.

Lemma lifecycle_rules_validated_witness :
  (∃ rs, resourceGCSBucketLifecycleCreateOrUpdate (with_rules [expire_rule]) empty_bucket
         = Ok (with_Lifecycle empty_bucket
                 (Some {| Rule := rs;
                          lifecycle_ForceSendFields :=
                            match rs with [] => ["Rule"] | _ => [] end |})) ∧
         Forall2 (λ rule r, expand_lifecycle_rule rule = Ok r) [expire_rule] rs) ∧
  (resourceGCSBucketLifecycleCreateOrUpdate (with_rules [expire_rule; two_actions_rule])
     empty_bucket = Err "Exactly one action is required" ∨
   resourceGCSBucketLifecycleCreateOrUpdate (with_rules [expire_rule; two_actions_rule])
     empty_bucket = Err "Exactly one condition is required").
Proof.
  split.
  - apply (proj1 (lifecycle_rules_validated (with_rules [expire_rule]) empty_bucket)).
    repeat constructor; intros ? [= <-]; reflexivity.
  - apply (proj2 (lifecycle_rules_validated (with_rules [expire_rule; two_actions_rule])
                    empty_bucket)).
    apply Exists_cons_tl, Exists_cons_hd. intros [Ha _].
    specialize (Ha _ eq_refl). discriminate.
Defined.
End lifecycle_samples.

(** ** Round trips between the API's values and the state *)

Section round_trips.
Import Bucket BucketRead.
Implicit Types (d : ResourceData) (sb : Bucket).

Lemma expand_cors_rules_flattenCors cs acc :
  expand_cors_rules (flattenCors cs) acc = Ok (acc ++ cs).
Proof.
  revert acc. induction cs as [|[o m rh ma] cs IH]; intros acc.
  - by rewrite app_nil_r.
  - cbn. unfold flattenCors in IH. rewrite IH. by rewrite <- app_assoc.
Qed.

Lemma expand_cors_rules_Some (bs : list CorsBlock) acc :
  ∃ rules, expand_cors_rules (Some <$> bs) acc = Ok (acc ++ rules) ∧
           flattenCors rules = Some <$> bs.
Proof.
  revert acc. induction bs as [|[o m rh ma] bs IH]; intros acc.
  - exists []. by rewrite app_nil_r.
  - cbn. destruct (IH (acc ++ [{| Origin := o; Method := m; ResponseHeader := rh;
                                 MaxAgeSeconds := ma |}])) as (rules & -> & Hflat).
    eexists (_ :: rules). split; [by rewrite <- app_assoc|].
    cbn. by rewrite <- Hflat.
Qed.

(** X7: what READ writes for the CORS rules, the logging, the versioning and
    the encryption of a bucket expands back to the API value it came from;
    versioning gains the forced field, and an encryption with an empty key
    name expands to nil.  For a bucket without encryption, READ writes an
    empty list that is not nil, on which the expansion is out of range. *)
Theorem flatten_expand_round_trip
    (cs : list BucketCors) (bs : list CorsBlock) (l : BucketLogging)
    (v : BucketVersioning) (enc : option BucketEncryption) :
  expandCors (flattenCors cs) = Ok cs ∧
  (∃ rules, expandCors (Some <$> bs) = Ok rules ∧ flattenCors rules = Some <$> bs) ∧
  expandBucketLogging (flattenBucketLogging (Some l)) = Ok l ∧
  expandBucketVersioning (flattenBucketVersioning (Some v))
    = Ok {| Enabled := Enabled v; versioning_ForceSendFields := ["Enabled"] |} ∧
  expandBucketEncryption (Some (flattenBucketEncryption enc))
    = match enc with
      | Some e => Ok (if bool_decide (DefaultKmsKeyName e = "") then None else Some e)
      | None => Panic index_out_of_range
      end.
Proof.
  split_and!.
  - unfold expandCors. by rewrite expand_cors_rules_flattenCors.
  - unfold expandCors. destruct (expand_cors_rules_Some bs []) as (rules & H & Hflat).
    by exists rules.
  - by destruct l.
  - done.
  - destruct enc as [[key]|]; [|done]. cbn. by destruct (bool_decide _).
Qed.

Lemma flatten_rules_read_back rules acc blocks :
  flatten_rules rules acc = Ok blocks →
  ∃ bs, blocks = acc ++ bs ∧
        ∀ acc', expand_lifecycle_rules (read_back_rule <$> bs) acc'
                = Ok (acc' ++ (with_is_live <$> rules)).
Proof.
  revert acc blocks. induction rules as [|rule rules IH]; intros acc blocks.
  - intros [= <-]. exists []. split; [by rewrite (right_id_L [] (++))|].
    intros acc'. cbn. by rewrite (right_id_L [] (++)).
  - cbn [flatten_rules]. destruct rule as [[a|] [c|]]; cbn; try done.
    intros (bs & -> & Hbs)%IH.
    eexists. split; [by rewrite <- (assoc_L (++))|].
    intros acc'. rewrite fmap_app. cbn. rewrite Hbs, <- (assoc_L (++)).
    by destruct a, c.
Qed.

Lemma with_is_live_fixed (rule : BucketLifecycleRule) :
  with_is_live rule = rule ↔ tests_liveness rule.
Proof.
  destruct rule as [a [[ag cb [live|] msc nnv]|]]; unfold tests_liveness; cbn; split.
  - intros _ c [= <-]. by eexists.
  - done.
  - intros [=].
  - intros H. by destruct (H _ eq_refl).
  - by intros _ c.
  - done.
Qed.

(** X8: the lifecycle rules that READ leaves in the state expand back to the
    rules the service returned but for the liveness test: the state gives
    ["is_live"] as [false] where the bucket's condition has none, so such a
    condition is sent back with [IsLive] pointing to [false].  The rules
    sent are the bucket's own exactly when each of its conditions tests the
    liveness. *)
Theorem lifecycle_round_trip d sb (lifecycle : BucketLifecycle)
    (blocks : list LifecycleRuleBlock) :
  flattenBucketLifecycle (Some lifecycle) = Ok blocks →
  lifecycle_rule (planned d) = read_back_rule <$> blocks →
  (∃ fields, resourceGCSBucketLifecycleCreateOrUpdate d sb
             = Ok (with_Lifecycle sb
                     (Some {| Rule := with_is_live <$> Rule lifecycle;
                              lifecycle_ForceSendFields := fields |}))) ∧
  (with_is_live <$> Rule lifecycle = Rule lifecycle ↔
   Forall tests_liveness (Rule lifecycle)).
Proof.
  intros (bs & Hb & Hbs)%flatten_rules_read_back Hd. cbn in Hb. subst blocks. split.
  - unfold resourceGCSBucketLifecycleCreateOrUpdate, GetOk. rewrite Hd.
    destruct bs as [|b bs].
    + specialize (Hbs []). cbn in Hbs. injection Hbs as <-. eauto.
    + rewrite fmap_cons, <- fmap_cons, (Hbs []). cbn. eauto.
  - clear. induction (Rule lifecycle) as [|rule rules IH]; [by split|].
    rewrite fmap_cons, Forall_cons, <- IH, <- with_is_live_fixed.
    split; [intros [= H1 H2]; by split|by intros [-> ->]].
Qed.

(** X9: READ's flattening panics exactly when the service returned a rule
    without action or without condition. *)
Theorem flattenBucketLifecycle_panics (lifecycle : BucketLifecycle) :
  (Forall has_action_and_condition (Rule lifecycle) →
   ∃ blocks, flattenBucketLifecycle (Some lifecycle) = Ok blocks ∧
             length blocks = length (Rule lifecycle)) ∧
  (¬ Forall has_action_and_condition (Rule lifecycle) →
   flattenBucketLifecycle (Some lifecycle) = Panic nil_dereference).
Proof.
  cbn [flattenBucketLifecycle].
  assert (∀ rules acc,
            (Forall has_action_and_condition rules →
             ∃ bs, flatten_rules rules acc = Ok (acc ++ bs) ∧ length bs = length rules) ∧
            (¬ Forall has_action_and_condition rules →
             flatten_rules rules acc = Panic nil_dereference)) as Hgen.
  { induction rules as [|rule rules IH]; intros acc.
    - split; [|by intros []]. intros _. exists []. by rewrite (right_id_L [] (++)).
    - split.
      + intros [[Ha Hc] Hall]%Forall_cons.
        destruct rule as [[a|] [c|]]; cbn in Ha, Hc;
          try (by destruct Ha); try (by destruct Hc).
        cbn [flatten_rules flattenBucketLifecycleRuleAction
               flattenBucketLifecycleRuleCondition Action Condition mbind outcome_bind].
        match goal with
        | |- ∃ bs, flatten_rules rules ?acc' = _ ∧ _ =>
            destruct (proj1 (IH acc') Hall) as (bs & Hbs & Hlen)
        end.
        rewrite Hbs. eexists. split; [by rewrite <- (assoc_L (++))|].
        cbn. by rewrite Hlen.
      + intros Hbad. destruct rule as [[a|] [c|]]; cbn; try done.
        apply IH. intros Hall. apply Hbad. constructor; [by split; eexists|done]. }
  destruct (Hgen (Rule lifecycle) []) as [Hok Hbad]. split; [|done].
  intros Hall. destruct (Hok Hall) as (bs & -> & Hlen). by exists bs.
Qed.
End round_trips.

Section round_trip_samples.
Import Bucket BucketRead ReadSamples.

Lemma lifecycle_round_trip_witness :
  ∃ fields,
    resourceGCSBucketLifecycleCreateOrUpdate (with_rules [expire_rule]) empty_bucket
    = Ok (with_Lifecycle empty_bucket
            (Some {| Rule := [{| Action := Action api_expire_rule;
                                 Condition :=
                                   Some {| Age := 30; CreatedBefore := "";
                                           IsLive := Some false;
                                           MatchesStorageClass := [];
                                           NumNewerVersions := 0 |} |}];
                     lifecycle_ForceSendFields := fields |})).
Proof.
  destruct (flattenBucketLifecycle
              (Some {| Rule := [api_expire_rule]; lifecycle_ForceSendFields := [] |}))
    as [blocks|e|msg] eqn:Hflat; [|by vm_compute in Hflat..].
  apply (lifecycle_round_trip (with_rules [expire_rule]) empty_bucket _ blocks Hflat).
  vm_compute in Hflat. by injection Hflat as <-.
Defined.

Lemma flattenBucketLifecycle_panics_witness :
  (∃ blocks,
      flattenBucketLifecycle (Some {| Rule := [api_expire_rule];
                                      lifecycle_ForceSendFields := [] |}) = Ok blocks ∧
      length blocks = 1) ∧
  flattenBucketLifecycle
    (Some {| Rule := [api_expire_rule; {| Action := None; Condition := None |}];
             lifecycle_ForceSendFields := [] |}) = Panic nil_dereference.
Proof.
  split.
  - apply (proj1 (flattenBucketLifecycle_panics
                    {| Rule := [api_expire_rule]; lifecycle_ForceSendFields := [] |})).
    repeat constructor; by eexists.
  - apply (proj2 (flattenBucketLifecycle_panics
                    {| Rule := [api_expire_rule; {| Action := None; Condition := None |}];
                       lifecycle_ForceSendFields := [] |})).
    intros Hall. apply Forall_cons in Hall as [_ Hall].
    apply Forall_cons in Hall as [[[a Ha] _] _]. discriminate.
Defined.
End round_trip_samples.

(** ** READ and the importer *)

Section read.
Import Bucket BucketRead.
Implicit Types (rd : Reader) (st : State) (res : Bucket) (n : N).

(** X10: READ asks for the project only when the resource has none: one call
    when the project is set, a second one for the bucket's project number
    (in decimal) when it is not; a failure of that lookup fails the read,
    and its answer becomes the resource's project. *)
Theorem Read_project_lookup rd st res n :
  Buckets_Get rd (name (planned (data st))) = inr (res, n) →
  (project st ≠ "" →
   (resourceStorageBucketRead rd st).2 = [BucketsGet (name (planned (data st)))] ∧
   ∀ st', (resourceStorageBucketRead rd st).1 = Ok st' → project st' = project st) ∧
  (project st = "" →
   (resourceStorageBucketRead rd st).2
     = [BucketsGet (name (planned (data st))); ProjectsGet (pretty n)] ∧
   (∀ err, Projects_Get rd (pretty n) = inl err →
           (resourceStorageBucketRead rd st).1 = Err (Message err)) ∧
   (∀ p st', Projects_Get rd (pretty n) = inr p →
             (resourceStorageBucketRead rd st).1 = Ok st' → project st' = p)).
Proof.
  intros HGet. unfold resourceStorageBucketRead. rewrite HGet. split.
  - intros Hp. rewrite bool_decide_eq_false_2 by done.
    destruct (flattenBucketLifecycle (Lifecycle res)); (split; [done|]); [|done..].
    intros st' [= <-]. by destruct (Billing res).
  - intros Hp. rewrite bool_decide_eq_true_2 by done.
    destruct (Projects_Get rd (pretty n)) as [err|p].
    + split; [done|]. split; [by intros ? [= <-]|done].
    + destruct (flattenBucketLifecycle (Lifecycle res));
        (split; [done|]); (split; [done|]); [|done..].
      intros p' st' [= <-] [= <-]. by destruct (Billing res).
Qed.

(** X11: what a successful READ refreshes and what it leaves alone: the name,
    force_destroy and the website block are not touched; the labels are all
    the labels of the bucket; the CORS rules written expand back to the
    bucket's; requester_pays is false when the bucket has no billing. *)
Theorem Read_refreshes rd st st' res n calls :
  Buckets_Get rd (name (planned (data st))) = inr (res, n) →
  resourceStorageBucketRead rd st = (Ok st', calls) →
  name (planned (data st')) = name (planned (data st)) ∧
  force_destroy (planned (data st')) = force_destroy (planned (data st)) ∧
  website (planned (data st')) = website (planned (data st)) ∧
  prior (data st') = prior (data st) ∧
  url st' = "gs://" +:+ name (planned (data st)) ∧
  rd_id (data st') = Id res ∧
  rd_self_link (data st') = SelfLink res ∧
  labels (planned (data st')) = Labels res ∧
  storage_class (planned (data st')) = StorageClass res ∧
  location (planned (data st')) = Location res ∧
  expandCors (cors (planned (data st'))) = Ok (Cors res) ∧
  requester_pays (planned (data st'))
    = match Billing res with Some b => RequesterPays b | None => false end.
Proof.
  intros HGet. unfold resourceStorageBucketRead. rewrite HGet.
  assert (expandCors (flattenCors (Cors res)) = Ok (Cors res)) as Hcors.
  { unfold expandCors. by rewrite expand_cors_rules_flattenCors. }
  destruct (bool_decide (project st = ""));
    [destruct (Projects_Get rd (pretty n)); [done|]|];
    (destruct (flattenBucketLifecycle (Lifecycle res)); [|done..]);
    intros [= <- <-]; by destruct (Billing res).
Qed.

(** X12: an imported bucket is read under its id, with the project looked up,
    and is never force-destroyed: the importer turns force_destroy off.  Its
    lifecycle rules are the flattened rules of the bucket as the state gives
    them back. *)
Theorem import_then_read rd st res n p rules :
  project st = "" →
  Buckets_Get rd (rd_id (data st)) = inr (res, n) →
  Projects_Get rd (pretty n) = inr p →
  flattenBucketLifecycle (Lifecycle res) = Ok rules →
  ∃ st', resourceStorageBucketRead rd (resourceStorageBucketStateImporter st)
           = (Ok st', [BucketsGet (rd_id (data st)); ProjectsGet (pretty n)]) ∧
         name (planned (data st')) = rd_id (data st) ∧
         force_destroy (planned (data st')) = false ∧
         project st' = p ∧
         lifecycle_rule (planned (data st')) = read_back_rule <$> rules.
Proof.
  intros Hp HGet HProj Hrules. unfold resourceStorageBucketRead.
  cbn [resourceStorageBucketStateImporter Set_config Set_name Set_force_destroy
         data planned name project].
  rewrite HGet, HProj, Hrules, bool_decide_eq_true_2 by done.
  eexists. split; [done|]. by destruct (Billing res).
Qed.

(** X13: DELETE after an import does not empty the bucket: on a non-empty
    listing it returns the "not empty" error after that one call. *)
Theorem import_then_delete (fuel : nat) (h : Host) st (r r' : Remote) items :
  Objects_List r = (r', inr items) →
  items ≠ [] →
  resourceStorageBucketDelete (S fuel) h (data (resourceStorageBucketStateImporter st)) r
  = (Some (Err not_empty_error), r', [ObjectsList (rd_id (data st))]).
Proof.
  intros Hlist Hne. cbn [resourceStorageBucketDelete]. rewrite Hlist.
  by destruct items.
Qed.
End read.

Section read_samples.
Import Bucket BucketRead BucketSamples ReadSamples.

Lemma Read_project_lookup_witness :
  (resourceStorageBucketRead reader imported).2 = [BucketsGet "b"; ProjectsGet "42"] ∧
  ∃ st', (resourceStorageBucketRead reader imported).1 = Ok st' ∧
         project st' = "my-project".
Proof.
  destruct (Read_project_lookup reader imported remote_bucket 42 eq_refl)
    as [_ Hlookup].
  destruct (Hlookup eq_refl) as (Hcalls & _ & Hp).
  split; [exact Hcalls|].
  destruct (resourceStorageBucketRead reader imported).1 as [st'|e|msg] eqn:Hrun;
    [|by vm_compute in Hrun..].
  exists st'. split; [done|]. by apply (Hp "my-project" st').
Defined.

Lemma Read_refreshes_witness :
  ∃ st', (resourceStorageBucketRead reader imported).1 = Ok st' ∧
         website (planned (data st')) = [Some index_page] ∧
         labels (planned (data st')) = {[ "team" := "x"; "goog-managed" := "1" ]} ∧
         url st' = "gs://b".
Proof.
  destruct (resourceStorageBucketRead reader imported) as [[st'|e|msg] calls] eqn:Hrun;
    [|by vm_compute in Hrun..].
  destruct (Read_refreshes reader imported st' remote_bucket 42 calls eq_refl Hrun)
    as (_ & _ & Hw & _ & Hu & _ & _ & Hl & _).
  exists st'. by split_and!.
Defined.

Lemma import_then_read_witness :
  ∃ st', resourceStorageBucketRead reader (resourceStorageBucketStateImporter imported)
           = (Ok st', [BucketsGet "b"; ProjectsGet "42"]) ∧
         name (planned (data st')) = "b" ∧
         force_destroy (planned (data st')) = false ∧
         project st' = "my-project" ∧
         lifecycle_rule (planned (data st')) = [expire_rule].
Proof.
  destruct (flattenBucketLifecycle (Lifecycle remote_bucket)) as [rules|e|msg] eqn:Hflat;
    [|by vm_compute in Hflat..].
  destruct (import_then_read reader imported remote_bucket 42 "my-project" rules
              eq_refl eq_refl eq_refl Hflat) as (st' & Hrun & Hname & Hforce & Hp & Hrules).
  exists st'. split_and!; [done|done|done|done|].
  rewrite Hrules. vm_compute in Hflat. by injection Hflat as <-.
Defined.

Lemma import_then_delete_witness :
  resourceStorageBucketDelete 1 (host 4 id)
    (data (resourceStorageBucketStateImporter
             {| data := resource forced forced; project := ""; url := "" |}))
    (service three_versions 1000 serves_all)
  = (Some (Err not_empty_error),
     served (service three_versions 1000 serves_all) three_versions,
     [ObjectsList "b"]).
Proof.
  apply (import_then_delete 0 (host 4 id)
           {| data := resource forced forced; project := ""; url := "" |}
           (service three_versions 1000 serves_all) _ three_versions);
    [reflexivity|done].
Defined.
End read_samples.

(** ** More on the sparse patch *)

Section patch_extras.
Import Bucket.
Implicit Types (d : ResourceData) (sb : Bucket).

Lemma null_removed_labels_elem new_labels old nf x :
  x ∈ null_removed_labels new_labels old nf ↔
  x ∈ nf ∨ ∃ k, k ∈ old.*1 ∧ new_labels !! k = None ∧ x = "Labels." +:+ k.
Proof.
  revert nf. induction old as [|[k v] old IH]; intros nf.
  - split; [by left|]. intros [?|(k & Hk & _)]; [done|]. by apply elem_of_nil in Hk.
  - rewrite null_removed_labels_cons, IH, fmap_cons. cbn [fst]. split.
    + intros [Hx|(k' & Hk' & Hnew & ->)].
      * destruct (new_labels !! k) eqn:Hk; [by left|].
        apply elem_of_app in Hx as [Hx|Hx%list_elem_of_singleton]; [by left|].
        right. exists k. split_and!; [by left|done|done].
      * right. exists k'. split_and!; [by right|done|done].
    + intros [Hx|(k' & Hk' & Hnew & ->)].
      * left. destruct (new_labels !! k); [done|]. apply elem_of_app. by left.
      * apply elem_of_cons in Hk' as [->|Hk'].
        -- left. rewrite Hnew. apply elem_of_app. right. by apply list_elem_of_singleton.
        -- right. by exists k'.
Qed.

(** The markers of a patch, whatever else it carries. *)
Lemma Update_request_NullFields d sb :
  resourceStorageBucketUpdate_request d = Ok sb →
  ∃ base,
    Forall (λ x, x = "Logging" ∨ x = "Encryption" ∨ x = "Labels") base ∧
    NullFields sb =
      (if HasChange labels d
       then null_removed_labels (labels (planned d)) (map_to_list (labels (prior d))) base
       else base).
Proof.
  unfold resourceStorageBucketUpdate_request. cbv zeta.
  intros (sb1 & H1 & H)%bind_Ok_inv.
  apply bind_Ok_inv in H as (sb2 & H2 & H).
  apply bind_Ok_inv in H as (sb3 & H3 & H).
  apply bind_Ok_inv in H as (sb4 & H4 & H).
  apply bind_Ok_inv in H as (sb5 & H5 & H).
  apply bind_Ok_inv in H as (sb6 & H6 & H).
  injection H as <-.
  assert (NullFields sb1 = [] ∧ Website sb1 = None) as (N1 & W1).
  { destruct (HasChange lifecycle_rule d).
    - apply lifecycle_NullFields in H1 as [-> ->]. done.
    - by injection H1 as <-. }
  assert (NullFields sb2 = [] ∧ Website sb2 = None) as (N2 & W2).
  { destruct (HasChange versioning d), (HasChange requester_pays d);
      try (unfold GetOk in H2; destruct (versioning (planned d)) as [|[v|] vs];
           cbn in H2; try done);
      by injection H2 as <-. }
  assert (NullFields sb3 = []) as N3.
  { destruct (HasChange website d); [|by injection H3 as <-].
    unfold GetOk in H3. destruct (website (planned d)) as [|[w|] ws].
    - by injection H3 as <-.
    - destruct (bool_decide _); [done|]. by injection H3 as <-.
    - destruct (bool_decide _); [done|]. by rewrite W2 in H3. }
  apply Update_cors_step in H4 as (N4 & _).
  apply Update_logging_step in H5 as (_ & _ & _ & N5 & _).
  apply Update_encryption_step in H6 as (_ & _ & _ & N6 & _).
  assert (Forall (λ x, x = "Logging" ∨ x = "Encryption" ∨ x = "Labels")
            (NullFields sb6)) as N6'.
  { destruct N6 as [-> | ->], N5 as [-> | ->]; rewrite N4, N3; cbn [app];
      repeat first [ apply Forall_nil_2 | apply Forall_cons_2 ]; auto. }
  unfold expandLabels.
  destruct (HasChange labels d); [destruct (bool_decide _)|];
    cbn [NullFields with_NullFields with_Labels Labels];
    eexists; (split; [|reflexivity]); [|done..].
  apply Forall_app. split; [done|]. apply Forall_cons_2; [auto|apply Forall_nil_2].
Qed.

(** X15: UPDATE marks a label key for deletion exactly when the labels have
    changed, the old labels hold the key and the new ones do not: a label
    still declared is never nulled, a removed one always is. *)
Theorem Update_label_markers_exact d sb (k : string) :
  resourceStorageBucketUpdate_request d = Ok sb →
  ("Labels." +:+ k) ∈ NullFields sb ↔
  is_Some (labels (prior d) !! k) ∧ labels (planned d) !! k = None.
Proof.
  intros (base & Hbase & ->)%Update_request_NullFields. split.
  - destruct (HasChange labels d).
    + intros [Hin|(k' & Hk' & Hnew & Heq)]%null_removed_labels_elem.
      * eapply Forall_forall in Hbase; [|exact Hin]. by destruct Hbase as [?|[?|?]].
      * apply (inj (String.app "Labels.")) in Heq. subst k'.
        apply list_elem_of_fmap in Hk' as [[k1 v] [-> Hin]].
        apply elem_of_map_to_list in Hin. split; [by eexists|done].
    + intros Hin. eapply Forall_forall in Hbase; [|exact Hin].
      by destruct Hbase as [?|[?|?]].
  - intros [[v Hold] Hnew].
    assert (HasChange labels d = true) as ->.
    { apply bool_decide_eq_true_2. intros Heq. rewrite Heq in Hold. congruence. }
    apply null_removed_labels_elem. right. exists k. split_and!; [|done|done].
    apply list_elem_of_fmap. exists (k, v). split; [done|].
    by apply elem_of_map_to_list.
Qed.





(** X19: removing every lifecycle rule from the configuration sends an empty
    rule list, forced into the request, so that the bucket's rules are
    cleared. *)
Theorem Update_lifecycle_cleared d sb :
  HasChange lifecycle_rule d = true →
  lifecycle_rule (planned d) = [] →
  resourceStorageBucketUpdate_request d = Ok sb →
  Lifecycle sb = Some {| Rule := []; lifecycle_ForceSendFields := ["Rule"] |}.
Proof.
  intros Hchange Hrules. unfold resourceStorageBucketUpdate_request. cbv zeta.
  rewrite Hchange. unfold resourceGCSBucketLifecycleCreateOrUpdate.
  assert (GetOk lifecycle_rule d = ([], false)) as ->
    by (unfold GetOk; by rewrite Hrules).
  cbn [mbind outcome_bind].
  intros (sb2 & H2 & H)%bind_Ok_inv.
  apply bind_Ok_inv in H as (sb3 & H3 & H).
  apply bind_Ok_inv in H as (sb4 & H4 & H).
  apply bind_Ok_inv in H as (sb5 & H5 & H).
  apply bind_Ok_inv in H as (sb6 & H6 & H).
  injection H as <-.
  set (lc := Some {| Rule := []; lifecycle_ForceSendFields := ["Rule"] |}) in *.
  assert (Lifecycle sb2 = lc) as L2.
  { destruct (HasChange versioning d), (HasChange requester_pays d);
      try (unfold GetOk in H2; destruct (versioning (planned d)) as [|[v|] vs];
           cbn in H2; try done);
      by injection H2 as <-. }
  assert (Lifecycle sb3 = lc) as L3.
  { destruct (HasChange website d); [|by injection H3 as <-].
    unfold GetOk in H3. destruct (website (planned d)) as [|[w|] ws].
    - by injection H3 as <-.
    - destruct (bool_decide _); [done|]. by injection H3 as <-.
    - destruct (bool_decide _); [done|]. destruct (Website sb2); [|done].
      by injection H3 as <-. }
  apply Update_cors_step in H4 as (_ & _ & L4 & _).
  apply Update_logging_step in H5 as (_ & _ & L5 & _).
  apply Update_encryption_step in H6 as (_ & _ & L6 & _).
  assert (Lifecycle sb6 = lc) as L6' by (by rewrite L6, L5, L4).
  by destruct (HasChange labels d); [destruct (bool_decide _)|].
Qed.

(** X20: CREATE with an emptied website block ([website {}]) does not reach the
    insert call: the nil block fails the type assertion. *)
Theorem Create_emptied_website_block (h : Host) d (r : Remote) :
  website (planned d) = [None] →
  ∃ res, resourceStorageBucketCreate h d r = (res, r, []) ∧
         (∀ d', res ≠ Ok d') ∧
         (is_Some (match getProject h d with Ok p => Some p | _ => None end) →
          (∃ rules, expand_lifecycle_rules (lifecycle_rule (planned d)) [] = Ok rules) →
          head (versioning (planned d)) ≠ Some None →
          res = Panic nil_conversion).
Proof.
  intros Hw.
  assert ((∀ req, resourceStorageBucketCreate_request h d ≠ Ok req) ∧
          (is_Some (match getProject h d with Ok p => Some p | _ => None end) →
           (∃ rules, expand_lifecycle_rules (lifecycle_rule (planned d)) [] = Ok rules) →
           head (versioning (planned d)) ≠ Some None →
           resourceStorageBucketCreate_request h d = Panic nil_conversion)) as [Hno Hpanic].
  { unfold resourceStorageBucketCreate_request.
    rewrite (GetOk_cons website d _ _ Hw).
    rewrite bool_decide_eq_false_2 by (cbn; lia).
    cbn [mbind outcome_bind]. split.
    - intros req. apply bind_never_Ok. intros project ?.
      apply bind_never_Ok. intros sb1 ?. by apply bind_never_Ok.
    - intros Hproject Hlifecycle Hversioning.
      destruct (getProject h d) as [project| |]; [|by destruct Hproject..].
      cbn [mbind outcome_bind].
      match goal with
      | |- resourceGCSBucketLifecycleCreateOrUpdate d ?sb ≫= _ = _ =>
          destruct (lifecycle_expands d sb Hlifecycle) as [sb1 ->]
      end.
      cbn [mbind outcome_bind]. unfold GetOk.
      destruct (versioning (planned d)) as [|[v|] vs]; [done|done|].
      by destruct Hversioning. }
  unfold resourceStorageBucketCreate.
  destruct (resourceStorageBucketCreate_request h d) as [req|e|msg].
  - by destruct (Hno req).
  - exists (Err e). split; [done|]. split; [done|].
    intros X1 X2 X3. by specialize (Hpanic X1 X2 X3).
  - exists (Panic msg). split; [done|]. split; [done|].
    intros X1 X2 X3. by injection (Hpanic X1 X2 X3) as ->.
Qed.
End patch_extras.

(** ** More on Delete *)

Section delete_extras.
Import Bucket.
Implicit Types (h : Host) (d : ResourceData) (r : Remote) (evs : list Event)
  (order : list Object).

Lemma retry_call_first {A} (call : Remote → Remote * (ApiError + A)) ev again n r :
  (∀ err, (call r).2 = inl err → again err = false) →
  retry_call call ev again n r = ((call r).1, (call r).2, [ev]).
Proof.
  intros Hstop. destruct n; cbn [retry_call]; destruct (call r) as [r1 [err|a]]; try done.
  by rewrite (Hstop err).
Qed.

Lemma retry_call_always {A} (P : Remote → Prop)
    (call : Remote → Remote * (ApiError + A)) ev again n r e :
  P r →
  (∀ r, P r → (call r).2 = inl e ∧ P (call r).1) →
  again e = true →
  ∃ r', retry_call call ev again n r = (r', inl e, replicate (S n) ev).
Proof.
  intros HP Hfail Hagain. revert r HP.
  induction n as [|n IH]; intros r HP; cbn [retry_call];
    destruct (Hfail r HP) as (Hr & HP1); destruct (call r) as [r1 reply];
    cbn in Hr, HP1; subst reply.
  - eauto.
  - rewrite Hagain. destruct (IH r1 HP1) as (r' & ->). eauto.
Qed.

(** X21: the removal of the bucket is retried on code 429 and on nothing else:
    any other error of the first attempt is returned after that one call,
    while a service that keeps answering 429 is called once per attempt
    the deadline allows, and the error is returned in the end. *)
Theorem bucket_deletion_retried_on_429_only h (bucket : string) r (e : ApiError) :
  (bucket_delete_err r (clock r) = Some e → Code e ≠ 429%Z →
   remove_bucket h bucket r
   = (Err (Message e), served r (objects r), [BucketsDelete bucket])) ∧
  ((∀ n, bucket_delete_err r n = Some e) → Code e = 429%Z →
   ∃ r', remove_bucket h bucket r
         = (Err (Message e), r', replicate (S (retry_attempts h)) (BucketsDelete bucket))).
Proof.
  split.
  - intros He Hcode. unfold remove_bucket. rewrite retry_call_first.
    + unfold Buckets_Delete. cbn. by rewrite He.
    + unfold Buckets_Delete. cbn. rewrite He. intros err [= <-].
      by apply bool_decide_eq_false_2.
  - intros He Hcode. unfold remove_bucket.
    edestruct (retry_call_always (λ r0, bucket_delete_err r0 = bucket_delete_err r)
                 (λ r0, let '(r1, err) := Buckets_Delete r0 in
                        (r1, match err with Some e0 => inl e0 | None => inr tt end))
                 (BucketsDelete bucket) (λ gerr, bool_decide (Code gerr = 429%Z))
                 (retry_attempts h) r e) as (r' & ->).
    + done.
    + intros r0 Hr0. unfold Buckets_Delete. cbn. by rewrite Hr0, He.
    + by apply bool_decide_eq_true_2.
    + eauto.
Qed.

Lemma remove_bucket_first_ok h bucket r :
  bucket_delete_err r (clock r) = None →
  objects r = [] →
  remove_bucket h bucket r = (Ok tt, served r [], [BucketsDelete bucket]).
Proof.
  intros He Hobjs. unfold remove_bucket. rewrite retry_call_first.
  - unfold Buckets_Delete. cbn. by rewrite He, Hobjs.
  - unfold Buckets_Delete. cbn. by rewrite He, Hobjs.
Qed.

(** X22: an empty bucket is deleted with two calls, the listing and the bucket
    deletion, whether force_destroy is set or not. *)
Theorem Delete_empty_bucket (fuel : nat) h d r :
  objects r = [] →
  list_err r (clock r) = None →
  bucket_delete_err r (S (clock r)) = None →
  resourceStorageBucketDelete (S fuel) h d r
  = (Some (Ok tt), served (served r []) [],
     [ObjectsList (name (planned d)); BucketsDelete (name (planned d))]).
Proof.
  intros Hobjs Hlist Hdel. cbn [resourceStorageBucketDelete].
  rewrite Objects_List_served by done. rewrite Hobjs, take_nil.
  by rewrite remove_bucket_first_ok.
Qed.

(** A task of the pool never deletes the bucket, whatever the service
    answers. *)
Lemma pool_no_BucketsDelete bucket order r evs :
  Forall (λ ev, is_BucketsDelete ev = false) evs →
  Forall (λ ev, is_BucketsDelete ev = false)
    (foldl (λ st object, delete_object bucket object st) (r, evs) order).2.
Proof.
  revert r evs. induction order as [|o order IH]; intros r evs Hevs; [done|].
  cbn [foldl]. unfold delete_object at 2.
  destruct (Objects_Delete r o) as [r1 [err|]]; apply IH;
    (apply Forall_app; split; [done|]); by repeat constructor.
Qed.

(** X23: DELETE asks for the bucket's deletion only after a listing came back
    empty: whenever its trace holds a bucket-delete call, the bucket holds
    no object version. *)
Theorem bucket_deleted_only_when_empty (fuel : nat) h d r res r' evs :
  resourceStorageBucketDelete fuel h d r = (res, r', evs) →
  Exists (λ ev, is_BucketsDelete ev = true) evs →
  objects r' = [].
Proof.
  revert r res r' evs. induction fuel as [|fuel IH]; intros r res r' evs.
  - intros [= <- <- <-] Hex. by apply Exists_nil in Hex.
  - cbn [resourceStorageBucketDelete].
    destruct (Objects_List r) as [r1 [err|items]] eqn:Hlist.
    + intros [= <- <- <-] Hex. by apply Exists_cons in Hex as [?|?%Exists_nil].
    + destruct items as [|o items].
      * destruct (remove_bucket_events h (name (planned d)) r1)
          as (result & r2 & bd & Hrm & _ & _ & Hobjs).
        rewrite Hrm. intros [= <- <- <-] _. rewrite Hobjs.
        unfold Objects_List in Hlist. destruct (list_err r (clock r)); [done|].
        injection Hlist as <- Hpage. cbn.
        destruct (objects r); [done|].
        by destruct (Nat.max 1 (max_results r)) eqn:Hmax; [lia|].
      * destruct (force_destroy (planned d)).
        -- destruct (foldl _ _ _) as [r2 evs2] eqn:Hpool.
           destruct (resourceStorageBucketDelete fuel h d r2) as [[res3 r3] evs3] eqn:Hrec.
           intros [= <- <- <-] Hex. apply (IH _ _ _ _ Hrec).
           apply Exists_cons in Hex as [?|Hex]; [done|].
           apply Exists_app in Hex as [Hex|Hex]; [|done].
           pose proof (pool_no_BucketsDelete (name (planned d))
                         (StopWait (New (NumCPU h - 1)) (schedule h) (clock r1) (o :: items))
                         r1 [] (Forall_nil_2 _)) as Hnone.
           rewrite Hpool in Hnone. cbn in Hnone.
           apply Exists_exists in Hex as (ev & Hin & Hev).
           eapply Forall_forall in Hnone; [|exact Hin]. congruence.
        -- intros [= <- <- <-] Hex. by apply Exists_cons in Hex as [?|?%Exists_nil].
Qed.

(** One round of the pool against a service that refuses every deletion:
    one delete call per task, and nothing else reaches the service. *)
Lemma pool_stuck_calls bucket order r evs :
  stuck r →
  ∃ r' evs', foldl (λ st object, delete_object bucket object st) (r, evs) order = (r', evs') ∧
             stuck r' ∧
             object_deletes evs' = object_deletes evs ++ order.
Proof.
  revert r evs. induction order as [|o order IH]; intros r evs Hstuck.
  - exists r, evs. by rewrite (right_id_L [] (++)).
  - cbn [foldl]. destruct (delete_object_refused bucket o r evs Hstuck) as [msg ->].
    destruct (IH (served r (objects r)) (evs ++ [ObjectsDelete bucket o; LogErr msg]))
      as (r' & evs' & -> & Hstuck' & Hdel); [by apply stuck_served|].
    exists r', evs'. split_and!; [done..|].
    by rewrite Hdel, object_deletes_app, <- (assoc_L (++)).
Qed.

(** X24: against a service that lists and refuses every object deletion, the
    forced delete of a non-empty bucket is still in its loop after any
    number of rounds, has called no bucket deletion, and has issued at
    least one object-delete call per round. *)
Theorem Delete_refused_deletions_loop (fuel : nat) h d r :
  stuck r →
  force_destroy (planned d) = true →
  ∃ r' evs, resourceStorageBucketDelete fuel h d r = (None, r', evs) ∧
            Forall (λ ev, is_BucketsDelete ev = false) evs ∧
            (fuel ≤ length (object_deletes evs))%nat.
Proof.
  intros Hstuck Hforce.
  destruct (Delete_stuck fuel h d r Hstuck Hforce) as (r' & evs & Hrun & Hnone).
  exists r', evs. split; [done|]. split; [done|].
  clear Hnone. revert r r' evs Hstuck Hrun.
  induction fuel as [|fuel IH]; intros r r' evs Hstuck; [cbn; lia|].
  cbn [resourceStorageBucketDelete].
  destruct Hstuck as (Hlist & Hrefuse & Hne).
  rewrite Objects_List_served by done.
  destruct (page_nonempty (max_results r) (objects r) Hne) as (o & items & ->).
  rewrite Hforce.
  set (order := StopWait _ _ _ _).
  destruct (pool_stuck_calls (name (planned d)) order (served r (objects r)) [])
    as (r1 & evs1 & -> & Hstuck1 & Hdel1); [done|].
  destruct (resourceStorageBucketDelete fuel h d r1) as [[res2 r2] evs2] eqn:Hrec.
  intros [= -> <- <-].
  specialize (IH r1 r2 evs2 Hstuck1 Hrec).
  change (object_deletes (ObjectsList (name (planned d)) :: evs1 ++ evs2))
    with (object_deletes (evs1 ++ evs2)).
  rewrite object_deletes_app, Hdel1, !length_app. cbn [object_deletes omap length].
  assert (length order = length (o :: items)) as Hlen.
  { unfold order. by rewrite StopWait_perm. }
  rewrite Hlen. cbn. lia.
Qed.
End delete_extras.

Section extra_samples.
Import Bucket BucketSamples DeleteSamples.

Lemma Update_request_null_markers_witness :
  ∃ sb, resourceStorageBucketUpdate_request all_cleared = Ok sb ∧
        "Logging" ∈ NullFields sb.
Proof.
  destruct (resourceStorageBucketUpdate_request all_cleared) as [sb|e|msg] eqn:Hreq;
    [|by vm_compute in Hreq..].
  exists sb. split; [done|].
  by apply (Update_request_null_markers all_cleared sb Hreq).
Defined.

Lemma Update_request_unmarked_witness :
  ∃ sb, resourceStorageBucketUpdate_request all_cleared = Ok sb ∧
        ("Cors" ∉ NullFields sb) ∧ ("Website" ∉ NullFields sb) ∧
        Cors sb = [] ∧ Website sb = None.
Proof.
  destruct (resourceStorageBucketUpdate_request all_cleared) as [sb|e|msg] eqn:Hreq;
    [|by vm_compute in Hreq..].
  destruct (Update_request_unmarked all_cleared sb Hreq) as (Hc & Hw & Hcors & Hweb).
  exists sb. split_and!; [done|done|done|by apply Hcors|by apply Hweb].
Defined.

Lemma Update_request_emptied_website_witness :
  resourceStorageBucketUpdate_request empty_website_added = Panic nil_dereference.
Proof.
  apply (Update_request_emptied_website empty_website_added);
    [reflexivity|reflexivity|by eexists|done].
Defined.

Lemma Update_label_markers_exact_witness :
  ∃ sb, resourceStorageBucketUpdate_request websites_kept_label_removed = Ok sb ∧
        "Labels.b" ∈ NullFields sb ∧ "Labels.a" ∉ NullFields sb.
Proof.
  destruct (resourceStorageBucketUpdate_request websites_kept_label_removed)
    as [sb|e|msg] eqn:Hreq; [|by vm_compute in Hreq..].
  exists sb. split; [done|]. split.
  - apply (Update_label_markers_exact websites_kept_label_removed sb "b" Hreq).
    split; [by eexists|]; by vm_compute.
  - intros Hin.
    apply (Update_label_markers_exact websites_kept_label_removed sb "a" Hreq) in Hin
      as [_ Hin].
    by vm_compute in Hin.
Defined.


Lemma Update_lifecycle_cleared_witness :
  ∃ sb, resourceStorageBucketUpdate_request rules_removed = Ok sb ∧
        Lifecycle sb = Some {| Rule := []; lifecycle_ForceSendFields := ["Rule"] |}.
Proof.
  destruct (resourceStorageBucketUpdate_request rules_removed) as [sb|e|msg] eqn:Hreq;
    [|by vm_compute in Hreq..].
  exists sb. split; [done|].
  by apply (Update_lifecycle_cleared rules_removed sb).
Defined.

Lemma Create_emptied_website_block_witness :
  resourceStorageBucketCreate (host 4 id) empty_website_added (service [] 1000 serves_all)
  = (Panic nil_conversion, service [] 1000 serves_all, []).
Proof.
  destruct (Create_emptied_website_block (host 4 id) empty_website_added
              (service [] 1000 serves_all) eq_refl) as (res & -> & _ & Hres).
  rewrite Hres; [done|by eexists|by eexists|done].
Defined.

Lemma bucket_deletion_retried_on_429_only_witness :
  remove_bucket (host 4 id) "b" (refusing_bucket_deletion 403)
  = (Err "not now", served (refusing_bucket_deletion 403) [], [BucketsDelete "b"]) ∧
  ∃ r', remove_bucket (host 4 id) "b" (refusing_bucket_deletion 429)
        = (Err "not now", r', replicate 4 (BucketsDelete "b")).
Proof.
  split.
  - apply (proj1 (bucket_deletion_retried_on_429_only (host 4 id) "b"
                    (refusing_bucket_deletion 403) {| Code := 403; Message := "not now" |}));
      [reflexivity|done].
  - apply (proj2 (bucket_deletion_retried_on_429_only (host 4 id) "b"
                    (refusing_bucket_deletion 429) {| Code := 429; Message := "not now" |}));
      [reflexivity|reflexivity].
Defined.

Lemma Delete_empty_bucket_witness :
  resourceStorageBucketDelete 1 (host 4 id) (resource plain plain)
    (service [] 1000 serves_all)
  = (Some (Ok tt), served (served (service [] 1000 serves_all) []) [],
     [ObjectsList "b"; BucketsDelete "b"]).
Proof.
  apply (Delete_empty_bucket 0 (host 4 id) (resource plain plain)
           (service [] 1000 serves_all)); reflexivity.
Defined.

Lemma bucket_deleted_only_when_empty_witness :
  ∃ res r' evs,
    resourceStorageBucketDelete 4 (host 4 id) (resource forced forced)
      (service three_versions 2 serves_all) = (res, r', evs) ∧
    objects r' = [].
Proof.
  destruct (resourceStorageBucketDelete 4 (host 4 id) (resource forced forced)
              (service three_versions 2 serves_all)) as [[res r'] evs] eqn:Hrun.
  exists res, r', evs. split; [done|].
  apply (bucket_deleted_only_when_empty _ _ _ _ _ _ _ Hrun).
  vm_compute in Hrun. injection Hrun as <- <- <-.
  do 6 apply Exists_cons_tl. by apply Exists_cons_hd.
Defined.

Lemma Delete_refused_deletions_loop_witness :
  ∃ r' evs,
    resourceStorageBucketDelete 3 (host 4 id) (resource forced forced)
      (service three_versions 2 refuses_all) = (None, r', evs) ∧
    Forall (λ ev, is_BucketsDelete ev = false) evs ∧
    (3 ≤ length (object_deletes evs))%nat.
Proof.
  apply (Delete_refused_deletions_loop 3 (host 4 id) (resource forced forced)
           (service three_versions 2 refuses_all)); [|reflexivity].
  split; [done|]. split; [|done]. intros n o. by eexists.
Defined.
End extra_samples.
